(** * Area-conservation mesh force: a shallow embedding of the HOOMD-blue code

    Embedded sources:
    - [hoomd/md/TriangleAreaConservationMeshForceCompute.cc]
      ([setParams], [getParams], [computeForces], [energyDiff]);
    - [hoomd/md/AreaConservationMeshForceComputeGPU.cc]
      (the host side of [computeForces]: kernel launch and flag inspection).

    HOOMD's [Scalar] is a build-time typedef ([double] in the default build).
    The embedding is generic in the scalar arithmetic ([ScalarOps]) and is
    instantiated twice: with IEEE binary64 (what the default build executes,
    used to run the code on concrete inputs) and with the real numbers (the
    exact arithmetic in which the formulas of the specification are read). *)

From Stdlib Require Import ZArith NArith Reals Lra Lia Floats String List DecimalString.
From stdpp Require Import base option list.

Set Warnings "-inexact-float".

(** ** Scalar arithmetic *)

Class ScalarOps (Scalar : Type) : Type := {
  s_lit  : Z -> Scalar;                 (* integer literal / unsigned -> Scalar *)
  s_add  : Scalar -> Scalar -> Scalar;
  s_sub  : Scalar -> Scalar -> Scalar;
  s_mul  : Scalar -> Scalar -> Scalar;
  s_div  : Scalar -> Scalar -> Scalar;
  s_opp  : Scalar -> Scalar;
  s_sqrt : Scalar -> Scalar;
  s_ltb  : Scalar -> Scalar -> bool;    (* a < b *)
  s_leb  : Scalar -> Scalar -> bool     (* a <= b *)
}.

Declare Scope scalar_scope.
Delimit Scope scalar_scope with sc.
Notation "a + b" := (s_add a b) : scalar_scope.
Notation "a - b" := (s_sub a b) : scalar_scope.
Notation "a * b" := (s_mul a b) : scalar_scope.
Notation "a / b" := (s_div a b) : scalar_scope.
Notation "- a" := (s_opp a) : scalar_scope.
Notation "a <? b" := (s_ltb a b) : scalar_scope.
Notation "a <=? b" := (s_leb a b) : scalar_scope.
Notation "a >? b" := (s_ltb b a) : scalar_scope.
(* the integer literals of the source, converted to [Scalar] *)
Notation "0" := (s_lit 0%Z) : scalar_scope.
Notation "1" := (s_lit 1%Z) : scalar_scope.
Notation "2" := (s_lit 2%Z) : scalar_scope.
Notation "6" := (s_lit 6%Z) : scalar_scope.

(** IEEE binary64, the [Scalar] of the default build. *)
Definition float_of_Z (z : Z) : float :=
  match z with
  | Z0 => PrimFloat.zero
  | Zpos _ => PrimFloat.of_uint63 (Uint63.of_Z z)
  | Zneg p => PrimFloat.opp (PrimFloat.of_uint63 (Uint63.of_Z (Zpos p)))
  end.

#[export] Instance binary64 : ScalarOps float := {|
  s_lit := float_of_Z;
  s_add := PrimFloat.add;
  s_sub := PrimFloat.sub;
  s_mul := PrimFloat.mul;
  s_div := PrimFloat.div;
  s_opp := PrimFloat.opp;
  s_sqrt := PrimFloat.sqrt;
  s_ltb := PrimFloat.ltb;
  s_leb := PrimFloat.leb
|}.

(** Exact real arithmetic. *)
Definition Rltb (a b : R) : bool := if Rlt_dec a b then true else false.
Definition Rleb (a b : R) : bool := if Rle_dec a b then true else false.

#[export] Instance exact : ScalarOps R := {|
  s_lit := IZR;
  s_add := Rplus;
  s_sub := Rminus;
  s_mul := Rmult;
  s_div := Rdiv;
  s_opp := Ropp;
  s_sqrt := R_sqrt.sqrt;
  s_ltb := Rltb;
  s_leb := Rleb
|}.


(** ** Unsigned integers

    [unsigned int] values are kept in [N]; the two sums the code forms on
    them wrap at 32 bits. *)
Definition uint_add (a b : N) : N := ((a + b) mod 2 ^ 32)%N.

(** Array access at an [unsigned int] index; [None] stands for an access
    outside the array (undefined in the C++ source). *)
Definition at_index {A : Type} (l : list A) (i : N) : option A := l !! N.to_nat i.

(** In-place update [l[i] = f(l[i])]. *)
Definition modify_at {A : Type} (l : list A) (i : N) (f : A -> A) : option (list A) :=
  v ← at_index l i; Some (<[N.to_nat i := f v]> l).

(** [assert(c)] and other guards: failing stops the computation. *)
Definition check (c : bool) : option unit := if c then Some tt else None.

(** ** Messages and outcomes *)

(** What a call writes to the messenger ([m_exec_conf->msg]). *)
Inductive message : Type :=
| Warning (text : string)
| Error (text : string).

(** How a call that may throw ends. *)
Inductive result (A : Type) : Type :=
| Ok (a : A)                 (* returns normally *)
| Throw (what : string)      (* a C++ exception and its what() *)
| Undefined.                 (* an access outside an array *)
Arguments Ok {A} a.
Arguments Throw {A} what.
Arguments Undefined {A}.

Definition of_option {A : Type} (o : option A) : result A :=
  match o with Some a => Ok a | None => Undefined end.

(** Decimal rendering of an [unsigned int] streamed into a message. *)
Definition show_uint (n : N) : string :=
  DecimalString.NilZero.string_of_uint (N.to_uint n).

Section Model.
Context {Scalar : Type} {ops : ScalarOps Scalar}.
Local Open Scope scalar_scope.

(** ** Vectors ([Scalar3], [Scalar4]) *)

Record Scalar3 : Type := make_scalar3 { x3 : Scalar; y3 : Scalar; z3 : Scalar }.
Record Scalar4 : Type :=
  make_scalar4 { x4 : Scalar; y4 : Scalar; z4 : Scalar; w4 : Scalar }.

(** Modelled from the spec: the [Scalar3] operators of [HOOMDMath.h] are not
    under src/; they act component by component, and the division of a
    vector by a scalar multiplies by the reciprocal. *)
Definition v_scale (a : Scalar) (v : Scalar3) : Scalar3 :=
  make_scalar3 (a * x3 v) (a * y3 v) (a * z3 v).
Definition v_add (u v : Scalar3) : Scalar3 :=
  make_scalar3 (x3 u + x3 v) (y3 u + y3 v) (z3 u + z3 v).
Definition v_sub (u v : Scalar3) : Scalar3 :=
  make_scalar3 (x3 u - x3 v) (y3 u - y3 v) (z3 u - z3 v).
Definition v_div (v : Scalar3) (b : Scalar) : Scalar3 :=
  let q := 1 / b in make_scalar3 (x3 v * q) (y3 v * q) (z3 v * q).

(** The periodic box; only its minimum-image reduction is used. *)
Record BoxDim : Type := { minImage : Scalar3 -> Scalar3 }.

(** [d.x = h_pos[j].x - h_pos[i].x] and so on, before the minimum image. *)
Definition delta (pi pj : Scalar4) : Scalar3 :=
  make_scalar3 (x4 pj - x4 pi) (y4 pj - y4 pi) (z4 pj - z4 pi).

(** [u.x * v.x + u.y * v.y + u.z * v.z] *)
Definition dot (u v : Scalar3) : Scalar := x3 u * x3 v + y3 u * y3 v + z3 u * z3 v.

Definition xyz (p : Scalar4) : Scalar3 := make_scalar3 (x4 p) (y4 p) (z4 p).

(** [computeForces], l.194 *)
Definition area2_of (rsqab rsqac rabrac : Scalar) : Scalar :=
  s_sqrt (rsqab * rsqac - rabrac * rabrac).

(** [computeForces], l.196 *)
Definition prefactor_of (K0 At area2 : Scalar) : Scalar :=
  - K0 / (2 * At * area2) * (area2 / 2 - At).

(** [computeForces], l.198 *)
Definition energy_pp_of (K0 At area2 : Scalar) : Scalar :=
  K0 / (6 * At) * (area2 / 2 - At) * (area2 / 2 - At).

(** [computeForces], l.203-205 *)
Definition Fa_of (prefactor rsqab rsqac rabrac : Scalar) (dab dac : Scalar3) : Scalar3 :=
  v_scale prefactor (v_add (v_scale (rabrac - rsqac) dab) (v_scale (rabrac - rsqab) dac)).
Definition Fb_of (prefactor rsqac rabrac : Scalar) (dab dac : Scalar3) : Scalar3 :=
  v_scale prefactor (v_sub (v_scale rsqac dab) (v_scale rabrac dac)).
Definition Fc_of (prefactor rsqab rabrac : Scalar) (dab dac : Scalar3) : Scalar3 :=
  v_scale prefactor (v_sub (v_scale rsqab dac) (v_scale rabrac dab)).

(** ** Data model *)

(** [MeshTriangle::members_t]: the tags of the three corners. *)
Record members_t : Type := { tag_0 : N; tag_1 : N; tag_2 : N }.

(** The part of [MeshTriangleData] the code consults. [typeval] is the type
    of each triangle and [type_mapping] the registry of type names. *)
Record MeshTriangleData : Type := {
  members : list members_t;
  typeval : list N;
  type_mapping : list string
}.

Definition mesh_getN (mesh : MeshTriangleData) : N := N.of_nat (length (members mesh)).
Definition mesh_getNTypes (mesh : MeshTriangleData) : N :=
  N.of_nat (length (type_mapping mesh)).

(** Modelled from the spec: [MeshTriangleData::getTypeByName] is not under
    src/; it maps a type name to its index and fails with the invalid-type
    error on an unknown name. *)
Fixpoint index_of (name : string) (names : list string) (i : N) : option N :=
  match names with
  | [] => None
  | n :: rest => if String.eqb n name then Some i else index_of name rest (N.succ i)
  end.
Definition getTypeByName (mesh : MeshTriangleData) (name : string) : result N :=
  match index_of name (type_mapping mesh) 0%N with
  | Some i => Ok i
  | None => Throw "Type not found"
  end.

(** The part of [ParticleData] the code consults. *)
Record ParticleData : Type := {
  getN : N;                      (* locally owned particles *)
  getNGhosts : N;
  getMaximumTag : N;
  getNTypes : N;
  h_pos : list Scalar4;
  h_rtag : list N;
  getGlobalBox : BoxDim;
  pressure_tensor : bool         (* flags[pdata_flag::pressure_tensor] *)
}.

(** The force compute: parameters, the accumulators of [ForceCompute], and
    the mesh area. *)
Record ForceCompute : Type := {
  m_K : list Scalar;
  m_Amesh : list Scalar;
  m_force : list Scalar4;
  m_virial : list Scalar;
  virial_pitch : N;
  m_area : Scalar
}.

Definition set_accumulators (fc : ForceCompute) (force : list Scalar4)
    (virial : list Scalar) : ForceCompute :=
  {| m_K := m_K fc; m_Amesh := m_Amesh fc; m_force := force; m_virial := virial;
     virial_pitch := virial_pitch fc; m_area := m_area fc |}.
Definition set_area (fc : ForceCompute) (a : Scalar) : ForceCompute :=
  {| m_K := m_K fc; m_Amesh := m_Amesh fc; m_force := m_force fc;
     m_virial := m_virial fc; virial_pitch := virial_pitch fc; m_area := a |}.
Definition set_params (fc : ForceCompute) (K Amesh : list Scalar) : ForceCompute :=
  {| m_K := K; m_Amesh := Amesh; m_force := m_force fc; m_virial := m_virial fc;
     virial_pitch := virial_pitch fc; m_area := m_area fc |}.

(** ** Parameters: [setParams], [getParams] *)

(** Constructor, l.35-36: both arrays have [m_pdata->getNTypes()] entries. *)
Definition allocated (pd : ParticleData) (fc : ForceCompute) : Prop :=
  length (m_K fc) = N.to_nat (getNTypes pd) /\
  length (m_Amesh fc) = N.to_nat (getNTypes pd).

(** [setParams], l.55-66: the stores, then the two warnings. *)
Definition setParams (fc : ForceCompute) (type : N) (K A_mesh : Scalar)
    : list message * option ForceCompute :=
  let stored :=
    K' ← modify_at (m_K fc) type (fun _ => K);
    A' ← modify_at (m_Amesh fc) type (fun _ => A_mesh);
    Some (set_params fc K' A') in
  let w1 := if K <=? 0 then [Warning "TriangleAreaConservation: specified K <= 0"] else [] in
  let w2 := if A_mesh <=? 0
            then [Warning "TriangleAreaConservation: specified A_mesh <= 0"] else [] in
  (w1 ++ w2, stored).

(** [getParams], l.76-88; the returned dictionary is the list of its items. *)
Definition getParams (mesh : MeshTriangleData) (fc : ForceCompute) (type : string)
    : list message * result (list (string * Scalar)) :=
  match getTypeByName mesh type with
  | Ok typ =>
      if (mesh_getNTypes mesh <=? typ)%N then
        ([Error "mesh.area_conservation: Invalid mesh type specified"],
         Throw "Error setting parameters in TriangleAreaConservationMeshForceCompute")
      else
        ([], of_option (k ← at_index (m_K fc) typ;
                        a ← at_index (m_Amesh fc) typ;
                        Some [("k"%string, k); ("A_mesh"%string, a)]))
  | Throw what => ([], Throw what)
  | Undefined => ([], Undefined)
  end.

(** ** Sequential evaluator: [computeForces] *)

(** The local array [triangle_area_conservation_virial[6]]. *)
Record Virial6 : Type := {
  v_xx : Scalar; v_xy : Scalar; v_xz : Scalar; v_yy : Scalar; v_yz : Scalar; v_zz : Scalar
}.

Definition v_get (v : Virial6) (j : N) : Scalar :=
  match j with
  | 0%N => v_xx v | 1%N => v_xy v | 2%N => v_xz v
  | 3%N => v_yy v | 4%N => v_yz v | _ => v_zz v
  end.

(** l.131-132 *)
Definition virial_zero : Virial6 :=
  {| v_xx := 0; v_xy := 0; v_xz := 0; v_yy := 0; v_yz := 0; v_zz := 0 |}.

(** l.209-214 (and l.233-238, l.253-258): [Scalar(1./2.) * d.x * F.x], ... *)
Definition virial_of (d F : Scalar3) : Virial6 :=
  {| v_xx := 1 / 2 * x3 d * x3 F;
     v_xy := 1 / 2 * y3 d * x3 F;
     v_xz := 1 / 2 * z3 d * x3 F;
     v_yy := 1 / 2 * y3 d * y3 F;
     v_yz := 1 / 2 * z3 d * y3 F;
     v_zz := 1 / 2 * z3 d * z3 F |}.

(** l.221-224: [h_force[idx].x += F.x; ... ; h_force[idx].w += energy_pp] *)
Definition add_force (F : Scalar3) (energy_pp : Scalar) (f : Scalar4) : Scalar4 :=
  make_scalar4 (x4 f + x3 F) (y4 f + y3 F) (z4 f + z3 F) (w4 f + energy_pp).

(** l.227-228: [for j: h_virial[j * virial_pitch + idx] += virial[j]] *)
Fixpoint add_virial (pitch idx : N) (tv : Virial6) (js : list N) (virial : list Scalar)
    : option (list Scalar) :=
  match js with
  | [] => Some virial
  | j :: js' =>
      virial' ← modify_at virial (j * pitch + idx)%N (fun v => v + v_get tv j);
      add_virial pitch idx tv js' virial'
  end.

Definition virial_rows : list N := [0; 1; 2; 3; 4; 5]%N.

(** l.219-229: the guarded accumulation into one corner. *)
Definition apply_vertex (pd : ParticleData) (idx : N) (F : Scalar3) (energy_pp : Scalar)
    (tv : Virial6) (fc : ForceCompute) : option ForceCompute :=
  if (idx <? getN pd)%N then
    force' ← modify_at (m_force fc) idx (add_force F energy_pp);
    virial' ← add_virial (virial_pitch fc) idx tv virial_rows (m_virial fc);
    Some (set_accumulators fc force' virial')
  else Some fc.

(** What one triangle contributes, from the positions of its corners
    (l.160-205). *)
Record TriangleTerms : Type := {
  t_dab : Scalar3; t_dac : Scalar3;
  t_rsqab : Scalar; t_rsqac : Scalar; t_rabrac : Scalar;
  t_area2 : Scalar; t_prefactor : Scalar; t_energy_pp : Scalar;
  t_Fa : Scalar3; t_Fb : Scalar3; t_Fc : Scalar3
}.

Definition triangle_terms (box : BoxDim) (K0 At : Scalar) (pa pb pc : Scalar4)
    : TriangleTerms :=
  let dab := minImage box (delta pa pb) in
  let dac := minImage box (delta pa pc) in
  let rsqab := dot dab dab in
  let rsqac := dot dac dac in
  let rabrac := dot dab dac in
  let area2 := area2_of rsqab rsqac rabrac in
  let prefactor := prefactor_of K0 At area2 in
  let energy_pp := energy_pp_of K0 At area2 in
  {| t_dab := dab; t_dac := dac;
     t_rsqab := rsqab; t_rsqac := rsqac; t_rabrac := rabrac;
     t_area2 := area2; t_prefactor := prefactor; t_energy_pp := energy_pp;
     t_Fa := Fa_of prefactor rsqab rsqac rabrac dab dac;
     t_Fb := Fb_of prefactor rsqac rabrac dab dac;
     t_Fc := Fc_of prefactor rsqab rabrac dab dac |}.

(** The tags of a triangle resolved to particle indices (l.146-158); the
    assertions bound the tags and the indices. *)
Definition resolve (pd : ParticleData) (triangle : members_t) : option (N * N * N) :=
  _ ← check (tag_0 triangle <? uint_add (getMaximumTag pd) 1)%N;
  _ ← check (tag_1 triangle <? uint_add (getMaximumTag pd) 1)%N;
  _ ← check (tag_2 triangle <? uint_add (getMaximumTag pd) 1)%N;
  idx_a ← at_index (h_rtag pd) (tag_0 triangle);
  idx_b ← at_index (h_rtag pd) (tag_1 triangle);
  idx_c ← at_index (h_rtag pd) (tag_2 triangle);
  _ ← check (idx_a <? uint_add (getN pd) (getNGhosts pd))%N;
  _ ← check (idx_b <? uint_add (getN pd) (getNGhosts pd))%N;
  _ ← check (idx_c <? uint_add (getN pd) (getNGhosts pd))%N;
  Some (idx_a, idx_b, idx_c).

(** The body of the loop over the triangles (l.142-270). The state is the
    force compute and the local virial array. *)
Definition triangle_step (pd : ParticleData) (compute_virial : bool) (At : Scalar)
    (st : ForceCompute * Virial6) (triangle : members_t)
    : option (ForceCompute * Virial6) :=
  let '(fc, tv) := st in
  '(idx_a, idx_b, idx_c) ← resolve pd triangle;
  pa ← at_index (h_pos pd) idx_a;
  pb ← at_index (h_pos pd) idx_b;
  pc ← at_index (h_pos pd) idx_c;
  K0 ← at_index (m_K fc) 0%N;
  let t := triangle_terms (getGlobalBox pd) K0 At pa pb pc in
  let fc := set_area fc (m_area fc + t_area2 t / 2) in
  let tv := if compute_virial then virial_of (xyz pa) (t_Fa t) else tv in
  fc ← apply_vertex pd idx_a (t_Fa t) (t_energy_pp t) tv fc;
  let tv := if compute_virial then virial_of (xyz pb) (t_Fb t) else tv in
  fc ← apply_vertex pd idx_b (t_Fb t) (t_energy_pp t) tv fc;
  let tv := if compute_virial then virial_of (xyz pc) (t_Fc t) else tv in
  fc ← apply_vertex pd idx_c (t_Fc t) (t_energy_pp t) tv fc;
  Some (fc, tv).

Fixpoint triangle_loop (pd : ParticleData) (compute_virial : bool) (At : Scalar)
    (triangles : list members_t) (st : ForceCompute * Virial6)
    : option (ForceCompute * Virial6) :=
  match triangles with
  | [] => Some st
  | triangle :: rest =>
      st' ← triangle_step pd compute_virial At st triangle;
      triangle_loop pd compute_virial At rest st'
  end.

Definition zero4 : Scalar4 := make_scalar4 0 0 0 0.

(** l.135-138: the target area of one triangle. *)
Definition target_area (mesh : MeshTriangleData) (fc : ForceCompute) : option Scalar :=
  A0 ← at_index (m_Amesh fc) 0%N;
  Some (A0 / s_lit (Z.of_N (mesh_getN mesh))).

(** [computeForces], l.93-274. *)
Definition computeForces (pd : ParticleData) (mesh : MeshTriangleData) (fc : ForceCompute)
    : option ForceCompute :=
  let fc := set_accumulators fc (replicate (length (m_force fc)) zero4)
                                (replicate (length (m_virial fc)) 0) in
  At ← target_area mesh fc;
  let fc := set_area fc 0 in
  st ← triangle_loop pd (pressure_tensor pd) At (members mesh) (fc, virial_zero);
  Some (fst st).

(** ** Incremental evaluator: [energyDiff] *)

(** l.324-327: [if (c > 1.0) c = 1.0; if (c < -1.0) c = -1.0;] *)
Definition clamp (c : Scalar) : Scalar :=
  let c := if c >? 1 then 1 else c in
  if c <? - (1) then - (1) else c.

(** The edge lengths and the clamped cosines of a flip (l.286-345). *)
Record FlipGeometry : Type := {
  rab : Scalar; rac : Scalar; rbd : Scalar; rdc : Scalar;
  c_baac : Scalar; c_abbd : Scalar; c_dcca : Scalar; c_bddc : Scalar
}.

Definition flip_geometry (box : BoxDim) (pa pb pc pd : Scalar4) : FlipGeometry :=
  let dab := minImage box (delta pa pb) in
  let dac := minImage box (delta pa pc) in
  let dbd := minImage box (delta pb pd) in
  let ddc := minImage box (delta pd pc) in
  let rab := s_sqrt (dot dab dab) in
  let rac := s_sqrt (dot dac dac) in
  let rbd := s_sqrt (dot dbd dbd) in
  let rdc := s_sqrt (dot ddc ddc) in
  let nab := v_div dab rab in
  let nac := v_div dac rac in
  let nbd := v_div dbd rbd in
  let ndc := v_div ddc rdc in
  {| rab := rab; rac := rac; rbd := rbd; rdc := rdc;
     c_baac := clamp (dot nab nac);
     c_abbd := clamp (- dot nab nbd);
     c_dcca := clamp (dot ndc nac);
     c_bddc := clamp (- dot ndc nbd) |}.

(** l.347-350: [s = sqrt(1.0 - c * c)] *)
Definition sine_of (c : Scalar) : Scalar := s_sqrt (1 - c * c).

(** l.352-356: the area of a triangle from two edges and the sine of the
    angle between them. *)
Definition area_of (r1 r2 s : Scalar) : Scalar := r1 * r2 * s / 2.

(** l.352-360 *)
Definition energy_delta (g : FlipGeometry) (K0 A0 At : Scalar) : Scalar :=
  let energy_old1 := area_of (rab g) (rac g) (sine_of (c_baac g)) - At in
  let energy_old2 := area_of (rab g) (rbd g) (sine_of (c_abbd g)) - At in
  let energy_new1 := area_of (rac g) (rdc g) (sine_of (c_dcca g)) - At in
  let energy_new2 := area_of (rdc g) (rbd g) (sine_of (c_bddc g)) - At in
  K0 / (2 * A0)
  * (energy_new1 * energy_new1 + energy_new2 * energy_new2
     - energy_old1 * energy_old1 - energy_old2 * energy_old2).

(** [energyDiff], l.276-361. The method is not [const]: the force compute is
    passed through, and returned as the call leaves it. *)
Definition energyDiff (pd : ParticleData) (fc : ForceCompute)
    (idx_a idx_b idx_c idx_d type_id : N) : option (Scalar * ForceCompute) :=
  pa ← at_index (h_pos pd) idx_a;
  pb ← at_index (h_pos pd) idx_b;
  pc ← at_index (h_pos pd) idx_c;
  pd' ← at_index (h_pos pd) idx_d;
  let g := flip_geometry (getGlobalBox pd) pa pb pc pd' in
  At ← at_index (m_Amesh fc) type_id;
  K0 ← at_index (m_K fc) 0%N;
  A0 ← at_index (m_Amesh fc) 0%N;
  Some (energy_delta g K0 A0 At, fc).
End Model.

Arguments Scalar3 Scalar : clear implicits.
Arguments Scalar4 Scalar : clear implicits.
Arguments BoxDim Scalar : clear implicits.
Arguments ParticleData Scalar : clear implicits.
Arguments ForceCompute Scalar : clear implicits.
Arguments Virial6 Scalar : clear implicits.
Arguments TriangleTerms Scalar : clear implicits.
Arguments FlipGeometry Scalar : clear implicits.

(** ** Batched evaluator: the host side of [computeForces] on the GPU *)

Section Batched.
Context {Scalar : Type} {ops : ScalarOps Scalar}.

(** The device tables of the mesh ([getGPUTable], [getGPUTableIndexer],
    [getGPUPosTable], [getNGroupsArray]) are passed on to the kernel as they
    are. *)
Context {MeshTables : Type}.

(** The arguments of the kernel driver, in the order of the call (l.111-124). *)
Record KernelArgs : Type := {
  k_force : list (Scalar4 Scalar);
  k_virial : list Scalar;
  k_virial_pitch : N;
  k_N : N;
  k_pos : list (Scalar4 Scalar);
  k_box : BoxDim Scalar;
  k_tables : MeshTables;
  k_params : list (Scalar * Scalar);
  k_n_types : N;
  k_block_size : N;
  k_flags : N
}.

(** What the kernel leaves in the arrays it writes. *)
Record KernelResult : Type := {
  r_force : list (Scalar4 Scalar);
  r_virial : list Scalar;
  r_flags : N
}.

(** [kernel::gpu_compute_AreaConservation_force] is defined in a [.cu] file
    that is not under src/: the host code is embedded over any kernel. *)
Variable gpu_compute_AreaConservation_force : KernelArgs -> KernelResult.

Record ForceComputeGPU : Type := {
  g_force : list (Scalar4 Scalar);
  g_virial : list Scalar;
  g_virial_pitch : N;
  m_params : list (Scalar * Scalar);
  m_flags : N;                      (* the one-element flags array *)
  m_tuner_param : N
}.

(** [AreaConservationMeshForceComputeGPU::computeForces], l.73-145.
    [CHECK_CUDA_ERROR] reports failures of the CUDA runtime itself, which are
    outside this model. *)
Definition computeForces_GPU (isCUDAErrorCheckingEnabled : bool)
    (pd : ParticleData Scalar) (tables : MeshTables) (n_types : N)
    (fc : ForceComputeGPU) : list message * result ForceComputeGPU :=
  let r := gpu_compute_AreaConservation_force
             {| k_force := g_force fc; k_virial := g_virial fc;
                k_virial_pitch := g_virial_pitch fc; k_N := getN pd;
                k_pos := h_pos pd; k_box := getGlobalBox pd; k_tables := tables;
                k_params := m_params fc; k_n_types := n_types;
                k_block_size := m_tuner_param fc; k_flags := m_flags fc |} in
  let fc' := {| g_force := r_force r; g_virial := r_virial r;
                g_virial_pitch := g_virial_pitch fc; m_params := m_params fc;
                m_flags := r_flags r; m_tuner_param := m_tuner_param fc |} in
  if isCUDAErrorCheckingEnabled then
    if negb (N.land (m_flags fc') 1 =? 0)%N then
      ([Error ("AreaConservation: triangle out of bounds ("
               ++ show_uint (m_flags fc') ++ ")")%string],
       Throw "Error in meshtriangle calculation")
    else ([], Ok fc')
  else ([], Ok fc').
End Batched.

(** ** Concrete systems (binary64)

    [open_box] is a box so large that no displacement is wrapped. *)

Definition position (x y z : float) : Scalar4 float := make_scalar4 x y z 0%float.

Definition open_box : BoxDim float := {| minImage := fun d => d |}.

(** Two owned particles and one ghost, the corners of a right triangle. *)
Definition ghost_system : ParticleData float := {|
  getN := 2; getNGhosts := 1; getMaximumTag := 2; getNTypes := 2;
  h_pos := [position 0 0 0; position 2 0 0; position 0 2 0];
  h_rtag := [0; 1; 2]%N;
  getGlobalBox := open_box;
  pressure_tensor := true
|}.

Definition ghost_triangle : members_t := {| tag_0 := 0; tag_1 := 1; tag_2 := 2 |}.

Definition ghost_mesh : MeshTriangleData := {|
  members := [ghost_triangle];
  typeval := [1%N];
  type_mapping := ["mesh"%string; "other"%string]
|}.

(** The same triangle registered under the other type. *)
Definition ghost_mesh_retyped : MeshTriangleData := {|
  members := [ghost_triangle];
  typeval := [0%N];
  type_mapping := ["mesh"%string; "other"%string]
|}.

(** A force compute with two types, K = (3, 5) and A_mesh = (1, 7); the
    accumulators hold stale values. *)
Definition two_type_compute : ForceCompute float := {|
  m_K := [3; 5]%float;
  m_Amesh := [1; 7]%float;
  m_force := replicate 3 (make_scalar4 9 9 9 9)%float;
  m_virial := replicate 18 9%float;
  virial_pitch := 3;
  m_area := 9%float
|}.

(** The force compute at the start of a pass: accumulators zeroed. *)
Definition fresh_compute : ForceCompute float := {|
  m_K := [3; 5]%float;
  m_Amesh := [1; 7]%float;
  m_force := replicate 3 (make_scalar4 0 0 0 0)%float;
  m_virial := replicate 18 0%float;
  virial_pitch := 3;
  m_area := 0%float
|}.

(** Three collinear particles. *)
Definition collinear_a : Scalar4 float := position 0 0 0.
Definition collinear_b : Scalar4 float := position 0.5 0.1 0.
Definition collinear_c : Scalar4 float := position 1.5 0.3 0.

(** What [computeForces] derives from them, with K = 3 and At = 1. *)
Definition collinear_terms : TriangleTerms float :=
  triangle_terms open_box 3%float 1%float collinear_a collinear_b collinear_c.

(** Four particles for an edge flip: a = (0,0,0), b = (3,0,0), c = (0,3,0),
    d = (-1,3,0). The edges ab, ac, bd, dc have lengths 3, 3, 5, 1 and the
    triangles abc, abd, acd, bcd have areas 9/2, 9/2, 3/2, 3/2. *)
Definition flip_system : ParticleData float := {|
  getN := 4; getNGhosts := 0; getMaximumTag := 3; getNTypes := 2;
  h_pos := [position 0 0 0; position 3 0 0; position 0 3 0; position (-1) 3 0];
  h_rtag := [0; 1; 2; 3]%N;
  getGlobalBox := open_box;
  pressure_tensor := false
|}.

Definition flip_geometry_example : FlipGeometry float :=
  flip_geometry open_box (position 0 0 0) (position 3 0 0) (position 0 3 0)
                (position (-1) 3 0).

(** K = (2, 6) and A_mesh = (1, 4). *)
Definition flip_compute : ForceCompute float := {|
  m_K := [2; 6]%float;
  m_Amesh := [1; 4]%float;
  m_force := replicate 4 (make_scalar4 0 0 0 0)%float;
  m_virial := replicate 24 0%float;
  virial_pitch := 4;
  m_area := 0%float
|}.

(** A kernel that met an out-of-range membership entry: it raises the flag. *)
Definition faulting_kernel (args : @KernelArgs float unit) : @KernelResult float :=
  {| r_force := k_force args; r_virial := k_virial args; r_flags := 1 |}.

Definition gpu_compute : @ForceComputeGPU float := {|
  g_force := replicate 4 (make_scalar4 0 0 0 0)%float;
  g_virial := replicate 24 0%float;
  g_virial_pitch := 4;
  m_params := [(2, 1); (6, 4)]%float;
  m_flags := 0;
  m_tuner_param := 32
|}.

(** Real coordinates, and a real box that wraps nothing. *)
Definition real_box : BoxDim R := {| minImage := fun d => d |}.
Definition real_position (x y z : R) : Scalar4 R := make_scalar4 x y z 0%R.

(** ** The specification's reading of two formulas *)

Section Reading.
Context {Scalar : Type} {ops : ScalarOps Scalar}.
Local Open Scope scalar_scope.

(** Geometry kernel of the specification: the argument of the square root is
    clamped to zero. *)
Definition area2_clamped (rsqab rsqac rabrac : Scalar) : Scalar :=
  let arg := rsqab * rsqac - rabrac * rabrac in
  s_sqrt (if arg <? s_lit 0 then s_lit 0 else arg).

(** Energy change of the specification: one stiffness [K] and one target
    [A0], those of the type index, in the scale and in the four deviations. *)
Definition energy_delta_spec (g : FlipGeometry Scalar) (K A0 : Scalar) : Scalar :=
  let area_abc := area_of (rab g) (rac g) (sine_of (c_baac g)) in
  let area_abd := area_of (rab g) (rbd g) (sine_of (c_abbd g)) in
  let area_acd := area_of (rac g) (rdc g) (sine_of (c_dcca g)) in
  let area_bcd := area_of (rdc g) (rbd g) (sine_of (c_bddc g)) in
  K / (s_lit 2 * A0)
  * ((area_acd - A0) * (area_acd - A0) + (area_bcd - A0) * (area_bcd - A0)
     - (area_abc - A0) * (area_abc - A0) - (area_abd - A0) * (area_abd - A0)).

(** ** Vocabulary of the statements *)

(** Between [fc] and [fc'] the particle at [idx] received the force [F] and
    the energy [energy_pp]. *)
Definition force_received (fc fc' : ForceCompute Scalar) (idx : N) (F : Scalar3 Scalar)
    (energy_pp : Scalar) : Prop :=
  exists f, at_index (m_force fc) idx = Some f /\
            at_index (m_force fc') idx = Some (add_force F energy_pp f).

(** Between [fc] and [fc'] the particle at [idx] received the six virial
    components [tv]. *)
Definition virial_received (fc fc' : ForceCompute Scalar) (idx : N)
    (tv : Virial6 Scalar) : Prop :=
  forall j, (j < 6)%N ->
  exists v, at_index (m_virial fc) (j * virial_pitch fc + idx) = Some v /\
            at_index (m_virial fc') (j * virial_pitch fc + idx) = Some (v + v_get tv j).

(** The accumulators hold a cell for every owned particle: [m_force] one
    entry each, [m_virial] six rows of [virial_pitch] cells each. *)
Definition accumulators_sized (pd : ParticleData Scalar) (fc : ForceCompute Scalar)
    : Prop :=
  (N.to_nat (getN pd) <= length (m_force fc))%nat /\
  (getN pd <= virial_pitch fc)%N /\
  (6 * N.to_nat (virial_pitch fc) <= length (m_virial fc))%nat.

(** The local virial array when the corner at [p] with force [F] is
    accumulated: refreshed when the virial is requested, else as it was. *)
Definition corner_virial (compute_virial : bool) (tv : Virial6 Scalar)
    (p : Scalar4 Scalar) (F : Scalar3 Scalar) : Virial6 Scalar :=
  if compute_virial then virial_of (xyz p) F else tv.
End Reading.

(** ** The rest of the two files *)

Section Rest.
Context {Scalar : Type} {ops : ScalarOps Scalar}.
Local Open Scope scalar_scope.

(** [computeForces], l.146-194: twice the area of one triangle, as the loop
    body finds it from the tags and the positions. *)
Definition triangle_area2 (pd : ParticleData Scalar) (triangle : members_t)
    : option Scalar :=
  '(idx_a, idx_b, idx_c) ← resolve pd triangle;
  pa ← at_index (h_pos pd) idx_a;
  pb ← at_index (h_pos pd) idx_b;
  pc ← at_index (h_pos pd) idx_c;
  let dab := minImage (getGlobalBox pd) (delta pa pb) in
  let dac := minImage (getGlobalBox pd) (delta pa pc) in
  Some (area2_of (dot dab dab) (dot dac dac) (dot dab dac)).

(** l.140 and l.200 on their own: [m_area = 0], then [m_area += area2 / 2]
    for each triangle in turn. *)
Fixpoint area_total (pd : ParticleData Scalar) (triangles : list members_t)
    (area : Scalar) : option Scalar :=
  match triangles with
  | [] => Some area
  | triangle :: rest =>
      area2 ← triangle_area2 pd triangle;
      area_total pd rest (area + area2 / 2)
  end.

(** The particle at [i] is a corner of no triangle of the mesh. *)
Definition no_corner (pd : ParticleData Scalar) (mesh : MeshTriangleData) (i : N)
    : Prop :=
  forall triangle idx_a idx_b idx_c,
    triangle ∈ members mesh ->
    resolve pd triangle = Some (idx_a, idx_b, idx_c) ->
    i <> idx_a /\ i <> idx_b /\ i <> idx_c.

(** [AreaConservationMeshForceComputeGPU], l.48-50 and l.172:
    [m_num_blocks = group_size / m_block_size + 1], in [unsigned int]. *)
Definition num_blocks (group_size block_size : N) : N :=
  uint_add (group_size / block_size) 1.

(** The block size the constructor sets (l.48). *)
Definition m_block_size : N := 256.

(** The opposite of a displacement, and a box whose minimum image of the
    opposite displacement is the opposite minimum image. *)
Definition v_neg (v : Scalar3 Scalar) : Scalar3 Scalar :=
  make_scalar3 (- x3 v) (- y3 v) (- z3 v).
Definition odd_box (box : BoxDim Scalar) : Prop :=
  forall d, minImage box (v_neg d) = v_neg (minImage box d).

(** ** The force of a particle as a sum over the triangles

    Written on its own, for the pass to be compared with: what the triangles
    of a mesh add, in mesh order, to the force cell of the particle at [i]
    when the stiffness is [K] and the target area of one triangle is [At].
    A triangle adds the force of a corner and the energy [energy_pp] when
    that corner is the particle [i] and is owned. *)
Definition triangle_share (pd : ParticleData Scalar) (K At : Scalar)
    (triangle : members_t) (i : N) (f : Scalar4 Scalar) : Scalar4 Scalar :=
  match resolve pd triangle with
  | Some (idx_a, idx_b, idx_c) =>
      match at_index (h_pos pd) idx_a, at_index (h_pos pd) idx_b,
            at_index (h_pos pd) idx_c with
      | Some pa, Some pb, Some pc =>
          let dab := minImage (getGlobalBox pd) (delta pa pb) in
          let dac := minImage (getGlobalBox pd) (delta pa pc) in
          let rsqab := dot dab dab in
          let rsqac := dot dac dac in
          let rabrac := dot dab dac in
          let area2 := s_sqrt (rsqab * rsqac - rabrac * rabrac) in
          let prefactor := - K / (2 * At * area2) * (area2 / 2 - At) in
          let energy_pp := K / (6 * At) * (area2 / 2 - At) * (area2 / 2 - At) in
          let share (idx : N) (F : Scalar3 Scalar) (f : Scalar4 Scalar) :=
            if ((idx <? getN pd) && (i =? idx))%N
            then make_scalar4 (x4 f + x3 F) (y4 f + y3 F) (z4 f + z3 F)
                              (w4 f + energy_pp)
            else f in
          share idx_c (Fc_of prefactor rsqab rabrac dab dac)
            (share idx_b (Fb_of prefactor rsqac rabrac dab dac)
               (share idx_a (Fa_of prefactor rsqab rsqac rabrac dab dac) f))
      | _, _, _ => f
      end
  | None => f
  end.

Definition mesh_share (pd : ParticleData Scalar) (K At : Scalar)
    (triangles : list members_t) (i : N) (f : Scalar4 Scalar) : Scalar4 Scalar :=
  fold_left (fun f triangle => triangle_share pd K At triangle i f) triangles f.
End Rest.

(** ** More concrete systems *)

(** What the pass over [ghost_mesh] leaves. *)
Definition ghost_pass_result : ForceCompute float := {|
  m_K := [3; 5]%float; m_Amesh := [1; 7]%float;
  m_force := [make_scalar4 3 3 0 0.5; make_scalar4 (-3) 0 0 0.5;
              make_scalar4 0 0 0 0]%float;
  m_virial := [0; -3; 0; 0; 0; 0; 0; 0; 0; 0; 0; 0; 0; 0; 0; 0; 0; 0]%float;
  virial_pitch := 3; m_area := 2%float
|}.

(** A mesh whose second triangle names a tag no particle has. *)
Definition stray_triangle : members_t := {| tag_0 := 0; tag_1 := 1; tag_2 := 7 |}.
Definition stray_mesh : MeshTriangleData := {|
  members := [ghost_triangle; stray_triangle];
  typeval := [0; 0]%N;
  type_mapping := ["mesh"%string]
|}.

(** The two triangles abc and abd of [flip_system]; no pressure tensor is
    requested there. *)
Definition flip_mesh : MeshTriangleData := {|
  members := [ {| tag_0 := 0; tag_1 := 1; tag_2 := 2 |};
               {| tag_0 := 0; tag_1 := 1; tag_2 := 3 |} ];
  typeval := [0; 0]%N;
  type_mapping := ["mesh"%string]
|}.
Definition flip_pass : option (ForceCompute float) :=
  Eval vm_compute in computeForces flip_system flip_mesh flip_compute.
Definition flip_pass_result : ForceCompute float :=
  Eval vm_compute in from_option (fun r => r) flip_compute flip_pass.

(** The particles of [ghost_system] and a fourth one that no triangle uses. *)
Definition lone_system : ParticleData float := {|
  getN := 4; getNGhosts := 0; getMaximumTag := 3; getNTypes := 2;
  h_pos := [position 0 0 0; position 2 0 0; position 0 2 0; position 5 5 5];
  h_rtag := [0; 1; 2; 3]%N;
  getGlobalBox := open_box;
  pressure_tensor := true
|}.
Definition lone_pass_result : ForceCompute float :=
  Eval vm_compute in
    from_option (fun r => r) flip_compute (computeForces lone_system ghost_mesh flip_compute).

(** The flip of [flip_system] in real coordinates, with K = (2, 6) and
    A_mesh = (1, 4). *)
Definition real_flip_system : ParticleData R := {|
  getN := 4; getNGhosts := 0; getMaximumTag := 3; getNTypes := 2;
  h_pos := [real_position 0 0 0; real_position 3 0 0; real_position 0 3 0;
            real_position (-1) 3 0];
  h_rtag := [0; 1; 2; 3]%N;
  getGlobalBox := real_box;
  pressure_tensor := false
|}.
Definition real_flip_compute : ForceCompute R := {|
  m_K := [2; 6]%R; m_Amesh := [1; 4]%R;
  m_force := []; m_virial := []; virial_pitch := 4; m_area := 0%R
|}.

(** A kernel over membership tables that are either sound ([false]) or hold
    an out-of-range entry ([true]): it raises the lowest bit of the flag in
    the second case and never clears the flag. *)
Definition table_kernel (args : @KernelArgs float bool) : @KernelResult float :=
  {| r_force := k_force args; r_virial := k_virial args;
     r_flags := if k_tables args then N.lor (k_flags args) 1 else k_flags args |}.

(** One particle type under [ghost_mesh], which registers two triangle
    types: the constructor (l.35-36) gives [m_K] and [m_Amesh] one entry
    each, one per particle type. *)
Definition one_type_system : ParticleData float := {|
  getN := 3; getNGhosts := 0; getMaximumTag := 2; getNTypes := 1;
  h_pos := [position 0 0 0; position 2 0 0; position 0 2 0];
  h_rtag := [0; 1; 2]%N;
  getGlobalBox := open_box;
  pressure_tensor := false
|}.
Definition one_type_compute : ForceCompute float := {|
  m_K := [0]%float; m_Amesh := [0]%float;
  m_force := replicate 3 (make_scalar4 0 0 0 0)%float;
  m_virial := replicate 18 0%float;
  virial_pitch := 3; m_area := 0%float
|}.

(** * Properties *)

(** ** Arrays *)

Lemma at_index_modify_at {A : Type} (l l' : list A) (i : N) (f : A -> A) :
  modify_at l i f = Some l' ->
  forall k, at_index l' k = if (k =? i)%N then f <$> at_index l k else at_index l k.
Proof.
  unfold modify_at, at_index. intros Hm k.
  destruct (l !! N.to_nat i) as [v|] eqn:Hv; simpl in Hm; [|discriminate].
  injection Hm as <-.
  destruct (N.eqb_spec k i) as [->|Hne].
  - rewrite Hv. simpl. apply list_lookup_insert_eq. eapply lookup_lt_Some; eauto.
  - apply list_lookup_insert_ne. lia.
Qed.

Lemma modify_at_length {A : Type} (l l' : list A) (i : N) (f : A -> A) :
  modify_at l i f = Some l' -> length l' = length l.
Proof.
  unfold modify_at. destruct (at_index l i); simpl; [|discriminate].
  intros [= <-]. apply length_insert.
Qed.

Lemma modify_at_is_Some {A : Type} (l : list A) (i : N) (f : A -> A) :
  (N.to_nat i < length l)%nat -> is_Some (modify_at l i f).
Proof.
  intros Hi. unfold modify_at, at_index.
  destruct (lookup_lt_is_Some_2 l (N.to_nat i) Hi) as [v ->]. simpl. eauto.
Qed.

(** The slots [j * pitch + i] with [i < pitch] are the cells of a
    two-dimensional array: they determine [j] and [i]. *)
Lemma slot_inj (pitch j i j' i' : N) :
  (i < pitch)%N -> (i' < pitch)%N ->
  (j * pitch + i = j' * pitch + i')%N -> j = j' /\ i = i'.
Proof.
  intros Hi Hi' E.
  assert (j = j') as ->; [|lia].
  destruct (N.lt_trichotomy j j') as [Hlt|[->|Hlt]]; [exfalso|reflexivity|exfalso].
  - assert (j * pitch + pitch <= j' * pitch)%N by nia. lia.
  - assert (j' * pitch + pitch <= j * pitch)%N by nia. lia.
Qed.

Section Facts.
Context {Scalar : Type} {ops : ScalarOps Scalar}.
Local Open Scope scalar_scope.

(** ** The accumulation into one corner *)

Lemma add_virial_frame (pitch idx : N) (tv : Virial6 Scalar) (js : list N)
    (virial virial' : list Scalar) :
  add_virial pitch idx tv js virial = Some virial' ->
  forall k, (forall j, j ∈ js -> k <> (j * pitch + idx)%N) ->
  at_index virial' k = at_index virial k.
Proof.
  revert virial. induction js as [|j js IH]; simpl; intros virial Ha k Hk.
  - by injection Ha as <-.
  - destruct (modify_at virial (j * pitch + idx) _) as [v1|] eqn:Hm; simpl in Ha;
      [|discriminate].
    rewrite (IH _ Ha k); [|intros j' Hj'; apply Hk; by right].
    rewrite (at_index_modify_at _ _ _ _ Hm).
    destruct (N.eqb_spec k (j * pitch + idx)) as [->|_]; [|done].
    exfalso. eapply Hk; [by left|done].
Qed.

Lemma add_virial_slot (pitch idx : N) (tv : Virial6 Scalar) (js : list N)
    (virial virial' : list Scalar) :
  add_virial pitch idx tv js virial = Some virial' ->
  NoDup js -> (idx < pitch)%N ->
  forall j, j ∈ js ->
  at_index virial' (j * pitch + idx) =
  (fun v => v + v_get tv j) <$> at_index virial (j * pitch + idx).
Proof.
  revert virial. induction js as [|j0 js IH]; simpl; intros virial Ha Hnd Hidx j Hj.
  - by apply elem_of_nil in Hj.
  - destruct (modify_at virial (j0 * pitch + idx) _) as [v1|] eqn:Hm; simpl in Ha;
      [|discriminate].
    apply NoDup_cons in Hnd as [Hnotin Hnd].
    apply elem_of_cons in Hj as [->|Hj].
    + rewrite (add_virial_frame _ _ _ _ _ _ Ha).
      * rewrite (at_index_modify_at _ _ _ _ Hm), N.eqb_refl. done.
      * intros j' Hj' E. apply slot_inj in E as [-> _]; done.
    + rewrite (IH _ Ha Hnd Hidx j Hj).
      rewrite (at_index_modify_at _ _ _ _ Hm).
      destruct (N.eqb_spec (j * pitch + idx) (j0 * pitch + idx)) as [E|_]; [|done].
      apply slot_inj in E as [-> _]; done.
Qed.

Lemma add_virial_length (pitch idx : N) (tv : Virial6 Scalar) (js : list N)
    (virial virial' : list Scalar) :
  add_virial pitch idx tv js virial = Some virial' -> length virial' = length virial.
Proof.
  revert virial. induction js as [|j js IH]; simpl; intros virial Ha.
  - by injection Ha as <-.
  - destruct (modify_at virial (j * pitch + idx) _) as [v1|] eqn:Hm; simpl in Ha;
      [|discriminate].
    rewrite (IH _ Ha). eapply modify_at_length; eauto.
Qed.

Lemma virial_rows_NoDup : NoDup virial_rows.
Proof.
  unfold virial_rows.
  repeat (apply NoDup_cons; split; [rewrite ?elem_of_cons, ?elem_of_nil; lia|]).
  apply NoDup_nil_2.
Qed.

Lemma elem_of_virial_rows (j : N) : j ∈ virial_rows <-> (j < 6)%N.
Proof.
  unfold virial_rows. rewrite !elem_of_cons, elem_of_nil. lia.
Qed.

Lemma apply_vertex_ghost (pd : ParticleData Scalar) (idx : N) (F : Scalar3 Scalar)
    (e : Scalar) (tv : Virial6 Scalar) (fc : ForceCompute Scalar) :
  (getN pd <= idx)%N -> apply_vertex pd idx F e tv fc = Some fc.
Proof.
  intros Hg. unfold apply_vertex.
  destruct (N.ltb_spec idx (getN pd)); [lia|done].
Qed.

Lemma apply_vertex_owned (pd : ParticleData Scalar) (idx : N) (F : Scalar3 Scalar)
    (e : Scalar) (tv : Virial6 Scalar) (fc fc' : ForceCompute Scalar) :
  (idx < getN pd)%N ->
  apply_vertex pd idx F e tv fc = Some fc' ->
  exists force' virial',
    modify_at (m_force fc) idx (add_force F e) = Some force' /\
    add_virial (virial_pitch fc) idx tv virial_rows (m_virial fc) = Some virial' /\
    fc' = set_accumulators fc force' virial'.
Proof.
  intros Ho. unfold apply_vertex.
  destruct (N.ltb_spec idx (getN pd)); [|lia].
  intros Ha.
  apply bind_Some in Ha as (force' & Hf & Ha).
  apply bind_Some in Ha as (virial' & Hv & Ha).
  injection Ha as <-. eauto.
Qed.

(** A corner leaves the parameters, the pitch and the area as they are. *)
Lemma apply_vertex_keeps (pd : ParticleData Scalar) (idx : N) (F : Scalar3 Scalar)
    (e : Scalar) (tv : Virial6 Scalar) (fc fc' : ForceCompute Scalar) :
  apply_vertex pd idx F e tv fc = Some fc' ->
  m_K fc' = m_K fc /\ m_Amesh fc' = m_Amesh fc /\
  virial_pitch fc' = virial_pitch fc /\ m_area fc' = m_area fc /\
  length (m_force fc') = length (m_force fc) /\
  length (m_virial fc') = length (m_virial fc).
Proof.
  intros Ha. destruct (N.lt_ge_cases idx (getN pd)) as [Ho|Hg].
  - destruct (apply_vertex_owned _ _ _ _ _ _ _ Ho Ha) as (f' & v' & Hf & Hv & ->).
    simpl. repeat split; eauto using modify_at_length, add_virial_length.
  - rewrite apply_vertex_ghost in Ha by done. by injection Ha as <-.
Qed.

(** What a corner does to the force of any particle [i]. *)
Lemma apply_vertex_force (pd : ParticleData Scalar) (idx : N) (F : Scalar3 Scalar)
    (e : Scalar) (tv : Virial6 Scalar) (fc fc' : ForceCompute Scalar) (i : N) :
  apply_vertex pd idx F e tv fc = Some fc' ->
  at_index (m_force fc') i =
  if ((idx <? getN pd) && (i =? idx))%N
  then add_force F e <$> at_index (m_force fc) i
  else at_index (m_force fc) i.
Proof.
  intros Ha. destruct (N.ltb_spec idx (getN pd)) as [Ho|Hg]; simpl.
  - destruct (apply_vertex_owned _ _ _ _ _ _ _ Ho Ha) as (f' & v' & Hf & Hv & ->).
    simpl. apply (at_index_modify_at _ _ _ _ Hf).
  - rewrite apply_vertex_ghost in Ha by done. by injection Ha as <-.
Qed.

(** What a corner does to the virial of any particle [i], the virial being
    laid out in rows of [virial_pitch] cells, one cell per particle. *)
Lemma apply_vertex_virial (pd : ParticleData Scalar) (idx : N) (F : Scalar3 Scalar)
    (e : Scalar) (tv : Virial6 Scalar) (fc fc' : ForceCompute Scalar) (j i : N) :
  apply_vertex pd idx F e tv fc = Some fc' ->
  (getN pd <= virial_pitch fc)%N -> (i < virial_pitch fc)%N ->
  at_index (m_virial fc') (j * virial_pitch fc + i) =
  if ((idx <? getN pd) && (i =? idx) && (j <? 6))%N
  then (fun v => v + v_get tv j) <$> at_index (m_virial fc) (j * virial_pitch fc + i)
  else at_index (m_virial fc) (j * virial_pitch fc + i).
Proof.
  intros Ha Hl Hi. destruct (N.ltb_spec idx (getN pd)) as [Ho|Hg]; simpl.
  - destruct (apply_vertex_owned _ _ _ _ _ _ _ Ho Ha) as (f' & v' & Hf & Hv & ->).
    simpl. destruct (N.eqb_spec i idx) as [->|Hne]; simpl.
    + destruct (N.ltb_spec j 6) as [Hj|Hj].
      * apply (add_virial_slot _ _ _ _ _ _ Hv); auto using virial_rows_NoDup.
        by apply elem_of_virial_rows.
      * apply (add_virial_frame _ _ _ _ _ _ Hv).
        intros j' Hj' E. apply elem_of_virial_rows in Hj'.
        apply slot_inj in E as [-> _]; lia.
    + apply (add_virial_frame _ _ _ _ _ _ Hv).
      intros j' _ E. apply slot_inj in E as [_ ?]; [done|done|lia].
  - rewrite apply_vertex_ghost in Ha by done. by injection Ha as <-.
Qed.

(** An owned corner finds its cells in the arrays. *)
Lemma add_virial_cells (pitch idx : N) (tv : Virial6 Scalar) (js : list N)
    (virial virial' : list Scalar) :
  add_virial pitch idx tv js virial = Some virial' ->
  forall j, j ∈ js -> is_Some (at_index virial (j * pitch + idx)).
Proof.
  revert virial. induction js as [|j0 js IH]; simpl; intros virial Ha j Hj.
  - by apply elem_of_nil in Hj.
  - apply bind_Some in Ha as (v1 & Hm & Ha).
    apply elem_of_cons in Hj as [->|Hj].
    + unfold modify_at in Hm. apply bind_Some in Hm as (x & -> & _). eauto.
    + specialize (IH _ Ha j Hj). unfold at_index in *.
      apply lookup_lt_is_Some in IH. apply lookup_lt_is_Some.
      by rewrite <- (modify_at_length _ _ _ _ Hm).
Qed.

Lemma apply_vertex_cells (pd : ParticleData Scalar) (idx : N) (F : Scalar3 Scalar)
    (e : Scalar) (tv : Virial6 Scalar) (fc fc' : ForceCompute Scalar) :
  apply_vertex pd idx F e tv fc = Some fc' -> (idx < getN pd)%N ->
  is_Some (at_index (m_force fc) idx) /\
  (forall j, j < 6 -> is_Some (at_index (m_virial fc) (j * virial_pitch fc + idx)))%N.
Proof.
  intros Ha Ho.
  destruct (apply_vertex_owned _ _ _ _ _ _ _ Ho Ha) as (f' & v' & Hf & Hv & ->).
  split.
  - unfold modify_at in Hf. apply bind_Some in Hf as (f & -> & _). eauto.
  - intros j Hj. apply (add_virial_cells _ _ _ _ _ _ Hv). by apply elem_of_virial_rows.
Qed.

(** With accumulators of the right size every corner is accumulated. *)
Lemma add_virial_is_Some (pitch idx : N) (tv : Virial6 Scalar) (js : list N) :
  forall virial : list Scalar,
  (forall j, j ∈ js -> (N.to_nat (j * pitch + idx) < length virial)%nat) ->
  is_Some (add_virial pitch idx tv js virial).
Proof.
  induction js as [|j js IH]; intros virial Hj; simpl; [eauto|].
  destruct (modify_at_is_Some virial (j * pitch + idx) (fun v => v + v_get tv j))
    as [v1 Hm]; [apply Hj; by left|].
  rewrite Hm. cbn [mbind option_bind]. apply IH.
  intros j' Hj'. rewrite (modify_at_length _ _ _ _ Hm). apply Hj. by right.
Qed.

Lemma apply_vertex_is_Some (pd : ParticleData Scalar) (idx : N) (F : Scalar3 Scalar)
    (e : Scalar) (tv : Virial6 Scalar) (fc : ForceCompute Scalar) :
  accumulators_sized pd fc -> is_Some (apply_vertex pd idx F e tv fc).
Proof.
  intros (Hf & Hp & Hv). unfold apply_vertex.
  destruct (N.ltb_spec idx (getN pd)) as [Ho|_]; [|eauto].
  destruct (modify_at_is_Some (m_force fc) idx (add_force F e)) as [f' ->]; [lia|].
  cbn [mbind option_bind].
  destruct (add_virial_is_Some (virial_pitch fc) idx tv virial_rows (m_virial fc))
    as [v' ->]; [|cbn [mbind option_bind]; eauto].
  intros j Hj. apply elem_of_virial_rows in Hj. nia.
Qed.

Lemma apply_vertex_sized (pd : ParticleData Scalar) (idx : N) (F : Scalar3 Scalar)
    (e : Scalar) (tv : Virial6 Scalar) (fc fc' : ForceCompute Scalar) :
  apply_vertex pd idx F e tv fc = Some fc' ->
  accumulators_sized pd fc -> accumulators_sized pd fc'.
Proof.
  intros Ha (Hf & Hp & Hv).
  apply apply_vertex_keeps in Ha as (_ & _ & P & _ & Lf & Lv).
  unfold accumulators_sized. rewrite P, Lf, Lv. done.
Qed.

(** ** One triangle *)

Section Triangle.
Variables (pd : ParticleData Scalar) (compute_virial : bool) (At : Scalar).
Variables (fc fc' : ForceCompute Scalar) (tv tv' : Virial6 Scalar).
Variables (triangle : members_t) (idx_a idx_b idx_c : N).
Variables (pa pb pc : Scalar4 Scalar) (K0 : Scalar).

Hypothesis Hresolve : resolve pd triangle = Some (idx_a, idx_b, idx_c).
Hypothesis Hpa : at_index (h_pos pd) idx_a = Some pa.
Hypothesis Hpb : at_index (h_pos pd) idx_b = Some pb.
Hypothesis Hpc : at_index (h_pos pd) idx_c = Some pc.
Hypothesis HK0 : at_index (m_K fc) 0%N = Some K0.
Hypothesis Hstep :
  triangle_step pd compute_virial At (fc, tv) triangle = Some (fc', tv').

Let t := triangle_terms (getGlobalBox pd) K0 At pa pb pc.
Let e := t_energy_pp t.
Let fc0 := set_area fc (m_area fc + t_area2 t / s_lit 2).

Lemma triangle_step_inv :
  exists fc1 fc2,
    apply_vertex pd idx_a (t_Fa t) e (corner_virial compute_virial tv pa (t_Fa t)) fc0
      = Some fc1 /\
    apply_vertex pd idx_b (t_Fb t) e (corner_virial compute_virial tv pb (t_Fb t)) fc1
      = Some fc2 /\
    apply_vertex pd idx_c (t_Fc t) e (corner_virial compute_virial tv pc (t_Fc t)) fc2
      = Some fc' /\
    tv' = corner_virial compute_virial tv pc (t_Fc t).
Proof.
  pose proof Hstep as Hs. unfold triangle_step in Hs.
  rewrite Hresolve in Hs. cbn [mbind option_bind] in Hs.
  rewrite Hpa, Hpb, Hpc in Hs. cbn [mbind option_bind] in Hs.
  rewrite HK0 in Hs. cbn [mbind option_bind] in Hs.
  fold t in Hs. fold e in Hs. fold fc0 in Hs.
  apply bind_Some in Hs as (fc1 & H1 & Hs).
  apply bind_Some in Hs as (fc2 & H2 & Hs).
  apply bind_Some in Hs as (fc3 & H3 & Hs).
  injection Hs as <- <-. exists fc1, fc2.
  unfold corner_virial. destruct compute_virial; auto.
Qed.

Lemma triangle_step_keeps :
  m_K fc' = m_K fc /\ m_Amesh fc' = m_Amesh fc /\
  virial_pitch fc' = virial_pitch fc /\
  m_area fc' = m_area fc + t_area2 t / s_lit 2 /\
  length (m_force fc') = length (m_force fc) /\
  length (m_virial fc') = length (m_virial fc).
Proof.
  destruct triangle_step_inv as (fc1 & fc2 & H1 & H2 & H3 & _).
  apply apply_vertex_keeps in H1 as (K1 & A1 & P1 & R1 & F1 & V1).
  apply apply_vertex_keeps in H2 as (K2 & A2 & P2 & R2 & F2 & V2).
  apply apply_vertex_keeps in H3 as (K3 & A3 & P3 & R3 & F3 & V3).
  change (m_K fc0) with (m_K fc) in K1.
  change (m_Amesh fc0) with (m_Amesh fc) in A1.
  change (virial_pitch fc0) with (virial_pitch fc) in P1.
  change (m_area fc0) with (m_area fc + t_area2 t / s_lit 2) in R1.
  change (m_force fc0) with (m_force fc) in F1.
  change (m_virial fc0) with (m_virial fc) in V1.
  repeat split; congruence.
Qed.

(** The force of any particle [i] after the triangle: the three guarded
    accumulations in turn. *)
Lemma triangle_step_force_at (i : N) :
  at_index (m_force fc') i =
  let f0 := at_index (m_force fc) i in
  let f1 := if ((idx_a <? getN pd) && (i =? idx_a))%N
            then add_force (t_Fa t) e <$> f0 else f0 in
  let f2 := if ((idx_b <? getN pd) && (i =? idx_b))%N
            then add_force (t_Fb t) e <$> f1 else f1 in
  if ((idx_c <? getN pd) && (i =? idx_c))%N
  then add_force (t_Fc t) e <$> f2 else f2.
Proof.
  destruct triangle_step_inv as (fc1 & fc2 & H1 & H2 & H3 & _).
  cbv zeta.
  rewrite (apply_vertex_force _ _ _ _ _ _ _ i H3).
  rewrite (apply_vertex_force _ _ _ _ _ _ _ i H2).
  rewrite (apply_vertex_force _ _ _ _ _ _ _ i H1).
  done.
Qed.

(** The same for a virial cell of particle [i]. *)
Lemma triangle_step_virial_at (j i : N) :
  (getN pd <= virial_pitch fc)%N -> (i < virial_pitch fc)%N ->
  at_index (m_virial fc') (j * virial_pitch fc + i) =
  let add tv := fun v => v + v_get tv j in
  let v0 := at_index (m_virial fc) (j * virial_pitch fc + i) in
  let v1 := if ((idx_a <? getN pd) && (i =? idx_a) && (j <? 6))%N
            then add (corner_virial compute_virial tv pa (t_Fa t)) <$> v0 else v0 in
  let v2 := if ((idx_b <? getN pd) && (i =? idx_b) && (j <? 6))%N
            then add (corner_virial compute_virial tv pb (t_Fb t)) <$> v1 else v1 in
  if ((idx_c <? getN pd) && (i =? idx_c) && (j <? 6))%N
  then add (corner_virial compute_virial tv pc (t_Fc t)) <$> v2 else v2.
Proof.
  intros Hl Hi.
  destruct triangle_step_inv as (fc1 & fc2 & H1 & H2 & H3 & _).
  pose proof (apply_vertex_keeps _ _ _ _ _ _ _ H1) as (_ & _ & P1 & _).
  pose proof (apply_vertex_keeps _ _ _ _ _ _ _ H2) as (_ & _ & P2 & _).
  change (virial_pitch fc0) with (virial_pitch fc) in P1.
  cbv zeta.
  pose proof (apply_vertex_virial _ _ _ _ _ _ _ j i H3) as E3.
  pose proof (apply_vertex_virial _ _ _ _ _ _ _ j i H2) as E2.
  pose proof (apply_vertex_virial _ _ _ _ _ _ _ j i H1) as E1.
  rewrite P2, P1 in E3. rewrite P1 in E2.
  change (virial_pitch fc0) with (virial_pitch fc) in E1.
  rewrite (E3 Hl Hi), (E2 Hl Hi), (E1 Hl Hi). done.
Qed.

(** No write reaches a particle that is not owned. *)
Lemma triangle_step_ghost_force (i : N) :
  (getN pd <= i)%N -> at_index (m_force fc') i = at_index (m_force fc) i.
Proof.
  intros Hg. rewrite triangle_step_force_at. cbv zeta.
  repeat match goal with
  | |- context [((?x <? getN pd) && (i =? ?x))%N] =>
      replace ((x <? getN pd) && (i =? x))%N with false
        by (destruct (N.ltb_spec x (getN pd)), (N.eqb_spec i x); simpl; lia || done)
  end.
  done.
Qed.

Lemma triangle_step_ghost_virial (j i : N) :
  (getN pd <= virial_pitch fc)%N -> (i < virial_pitch fc)%N -> (getN pd <= i)%N ->
  at_index (m_virial fc') (j * virial_pitch fc + i)
  = at_index (m_virial fc) (j * virial_pitch fc + i).
Proof.
  intros Hl Hi Hg. rewrite triangle_step_virial_at by done. cbv zeta.
  repeat match goal with
  | |- context [((?x <? getN pd) && (i =? ?x) && ?c)%N] =>
      replace ((x <? getN pd) && (i =? x) && c)%N with false
        by (destruct (N.ltb_spec x (getN pd)), (N.eqb_spec i x); simpl; lia || done)
  end.
  done.
Qed.

(** The cells of the owned corners exist. *)
Lemma triangle_step_cells (idx : N) :
  idx = idx_a \/ idx = idx_b \/ idx = idx_c -> (idx < getN pd)%N ->
  is_Some (at_index (m_force fc) idx) /\
  (forall j, j < 6 -> is_Some (at_index (m_virial fc) (j * virial_pitch fc + idx)))%N.
Proof.
  intros Hin Ho.
  destruct triangle_step_inv as (fc1 & fc2 & H1 & H2 & H3 & _).
  pose proof (apply_vertex_keeps _ _ _ _ _ _ _ H1) as (_ & _ & P1 & _ & F1 & V1).
  pose proof (apply_vertex_keeps _ _ _ _ _ _ _ H2) as (_ & _ & P2 & _ & F2 & V2).
  change (virial_pitch fc0) with (virial_pitch fc) in P1.
  change (m_force fc0) with (m_force fc) in F1.
  change (m_virial fc0) with (m_virial fc) in V1.
  assert (exists g : ForceCompute Scalar, is_Some (at_index (m_force g) idx) /\
            (forall j, (j < 6)%N ->
               is_Some (at_index (m_virial g) (j * virial_pitch fc + idx)%N)) /\
            length (m_force g) = length (m_force fc) /\
            length (m_virial g) = length (m_virial fc)) as (g & Hf & Hv & Lf & Lv).
  { destruct Hin as [ -> | [ -> | -> ] ].
    - exists fc0. destruct (apply_vertex_cells _ _ _ _ _ _ _ H1 Ho). eauto.
    - exists fc1. destruct (apply_vertex_cells _ _ _ _ _ _ _ H2 Ho) as [? Hv].
      rewrite P1 in Hv. eauto.
    - exists fc2. destruct (apply_vertex_cells _ _ _ _ _ _ _ H3 Ho) as [? Hv].
      rewrite P2, P1 in Hv. split; [done|]. split; [done|]. split; congruence. }
  unfold at_index in *. split.
  - apply lookup_lt_is_Some. apply lookup_lt_is_Some in Hf. congruence.
  - intros j Hj. apply lookup_lt_is_Some. specialize (Hv j Hj).
    apply lookup_lt_is_Some in Hv. congruence.
Qed.

Ltac settle_guards :=
  cbv zeta;
  repeat match goal with
  | H : (?x < ?y)%N |- context [(?x <? ?y)%N] => rewrite (proj2 (N.ltb_lt x y) H)
  | |- context [(?x =? ?x)%N] => rewrite (N.eqb_refl x)
  | H : ?x <> ?y |- context [(?x =? ?y)%N] => rewrite (proj2 (N.eqb_neq x y) H)
  | H : ?y <> ?x |- context [(?x =? ?y)%N] =>
      rewrite (proj2 (N.eqb_neq x y) (not_eq_sym H))
  end;
  rewrite ?andb_false_r, ?andb_true_r, ?andb_false_l, ?andb_true_l.

(** With distinct corners, each owned corner receives its own force and the
    full energy. *)
Lemma force_received_a :
  (idx_a < getN pd)%N -> idx_a <> idx_b -> idx_a <> idx_c ->
  force_received fc fc' idx_a (t_Fa t) e.
Proof.
  intros Ho Hab Hac.
  destruct (triangle_step_cells idx_a) as [[f Hf] _]; [auto|done|].
  exists f. split; [done|].
  rewrite triangle_step_force_at. settle_guards. by rewrite Hf.
Qed.

Lemma force_received_b :
  (idx_b < getN pd)%N -> idx_a <> idx_b -> idx_b <> idx_c ->
  force_received fc fc' idx_b (t_Fb t) e.
Proof.
  intros Ho Hab Hbc.
  destruct (triangle_step_cells idx_b) as [[f Hf] _]; [auto|done|].
  exists f. split; [done|].
  rewrite triangle_step_force_at. settle_guards. by rewrite Hf.
Qed.

Lemma force_received_c :
  (idx_c < getN pd)%N -> idx_a <> idx_c -> idx_b <> idx_c ->
  force_received fc fc' idx_c (t_Fc t) e.
Proof.
  intros Ho Hac Hbc.
  destruct (triangle_step_cells idx_c) as [[f Hf] _]; [auto|done|].
  exists f. split; [done|].
  rewrite triangle_step_force_at. settle_guards. by rewrite Hf.
Qed.

(** The same for the virial, the rows being at least as long as the owned
    particles are many. *)
Lemma virial_received_a :
  (getN pd <= virial_pitch fc)%N ->
  (idx_a < getN pd)%N -> idx_a <> idx_b -> idx_a <> idx_c ->
  virial_received fc fc' idx_a (corner_virial compute_virial tv pa (t_Fa t)).
Proof.
  intros Hl Ho Hab Hac j Hj.
  destruct (triangle_step_cells idx_a) as [_ Hv]; [auto|done|].
  destruct (Hv j Hj) as [v Hc]. exists v. split; [done|].
  rewrite triangle_step_virial_at by lia. settle_guards. by rewrite Hc.
Qed.

Lemma virial_received_b :
  (getN pd <= virial_pitch fc)%N ->
  (idx_b < getN pd)%N -> idx_a <> idx_b -> idx_b <> idx_c ->
  virial_received fc fc' idx_b (corner_virial compute_virial tv pb (t_Fb t)).
Proof.
  intros Hl Ho Hab Hbc j Hj.
  destruct (triangle_step_cells idx_b) as [_ Hv]; [auto|done|].
  destruct (Hv j Hj) as [v Hc]. exists v. split; [done|].
  rewrite triangle_step_virial_at by lia. settle_guards. by rewrite Hc.
Qed.

Lemma virial_received_c :
  (getN pd <= virial_pitch fc)%N ->
  (idx_c < getN pd)%N -> idx_a <> idx_c -> idx_b <> idx_c ->
  virial_received fc fc' idx_c (corner_virial compute_virial tv pc (t_Fc t)).
Proof.
  intros Hl Ho Hac Hbc j Hj.
  destruct (triangle_step_cells idx_c) as [_ Hv]; [auto|done|].
  destruct (Hv j Hj) as [v Hc]. exists v. split; [done|].
  rewrite triangle_step_virial_at by lia. settle_guards. by rewrite Hc.
Qed.
End Triangle.

(** On a resolved triangle and accumulators of the right size the loop body
    runs to its end. *)
Lemma triangle_step_is_Some (pd : ParticleData Scalar) (compute_virial : bool)
    (At : Scalar) (fc : ForceCompute Scalar) (tv : Virial6 Scalar)
    (triangle : members_t) (idx_a idx_b idx_c : N)
    (pa pb pc : Scalar4 Scalar) (K0 : Scalar) :
  resolve pd triangle = Some (idx_a, idx_b, idx_c) ->
  at_index (h_pos pd) idx_a = Some pa ->
  at_index (h_pos pd) idx_b = Some pb ->
  at_index (h_pos pd) idx_c = Some pc ->
  at_index (m_K fc) 0%N = Some K0 ->
  accumulators_sized pd fc ->
  exists fc' tv', triangle_step pd compute_virial At (fc, tv) triangle = Some (fc', tv').
Proof.
  intros Hr Ha Hb Hc HK Hs. unfold triangle_step.
  rewrite Hr. cbn [mbind option_bind]. rewrite Ha, Hb, Hc. cbn [mbind option_bind].
  rewrite HK. cbn [mbind option_bind].
  set (t := triangle_terms (getGlobalBox pd) K0 At pa pb pc).
  assert (accumulators_sized pd (set_area fc (m_area fc + t_area2 t / 2))) as Hs0
    by exact Hs.
  match goal with
  | |- context [apply_vertex pd idx_a ?F ?e ?v ?g] =>
      destruct (apply_vertex_is_Some pd idx_a F e v g Hs0) as [fc1 H1]
  end.
  rewrite H1. cbn [mbind option_bind].
  pose proof (apply_vertex_sized _ _ _ _ _ _ _ H1 Hs0) as Hs1.
  match goal with
  | |- context [apply_vertex pd idx_b ?F ?e ?v fc1] =>
      destruct (apply_vertex_is_Some pd idx_b F e v fc1 Hs1) as [fc2 H2]
  end.
  rewrite H2. cbn [mbind option_bind].
  pose proof (apply_vertex_sized _ _ _ _ _ _ _ H2 Hs1) as Hs2.
  match goal with
  | |- context [apply_vertex pd idx_c ?F ?e ?v fc2] =>
      destruct (apply_vertex_is_Some pd idx_c F e v fc2 Hs2) as [fc3 H3]
  end.
  rewrite H3. cbn [mbind option_bind]. eauto.
Qed.

Arguments triangle_step_keeps {pd compute_virial At fc fc' tv tv' triangle
  idx_a idx_b idx_c pa pb pc K0}.
Arguments triangle_step_ghost_force {pd compute_virial At fc fc' tv tv' triangle
  idx_a idx_b idx_c pa pb pc K0}.
Arguments triangle_step_ghost_virial {pd compute_virial At fc fc' tv tv' triangle
  idx_a idx_b idx_c pa pb pc K0}.
Arguments force_received_a {pd compute_virial At fc fc' tv tv' triangle
  idx_a idx_b idx_c pa pb pc K0}.
Arguments force_received_b {pd compute_virial At fc fc' tv tv' triangle
  idx_a idx_b idx_c pa pb pc K0}.
Arguments force_received_c {pd compute_virial At fc fc' tv tv' triangle
  idx_a idx_b idx_c pa pb pc K0}.
Arguments virial_received_a {pd compute_virial At fc fc' tv tv' triangle
  idx_a idx_b idx_c pa pb pc K0}.
Arguments virial_received_b {pd compute_virial At fc fc' tv tv' triangle
  idx_a idx_b idx_c pa pb pc K0}.
Arguments virial_received_c {pd compute_virial At fc fc' tv tv' triangle
  idx_a idx_b idx_c pa pb pc K0}.

(** C1. On every triangle the energy [K/(6 At) (area2/2 - At)^2], the square
    being the product the source writes, is added whole, and not a third of
    it, to the energy of each corner whose index is owned. (Corners are
    distinct particles, and the accumulators hold a cell for every owned
    particle.) *)
Theorem energy_added_in_full
    (pd : ParticleData Scalar) (compute_virial : bool) (At : Scalar)
    (fc : ForceCompute Scalar) (tv : Virial6 Scalar)
    (triangle : members_t) (idx_a idx_b idx_c : N)
    (pa pb pc : Scalar4 Scalar) (K0 : Scalar) :
  resolve pd triangle = Some (idx_a, idx_b, idx_c) ->
  at_index (h_pos pd) idx_a = Some pa ->
  at_index (h_pos pd) idx_b = Some pb ->
  at_index (h_pos pd) idx_c = Some pc ->
  at_index (m_K fc) 0%N = Some K0 ->
  accumulators_sized pd fc ->
  idx_a <> idx_b -> idx_a <> idx_c -> idx_b <> idx_c ->
  let area2 := t_area2 (triangle_terms (getGlobalBox pd) K0 At pa pb pc) in
  let energy_pp := K0 / (6 * At) * (area2 / 2 - At) * (area2 / 2 - At) in
  exists fc' tv',
    triangle_step pd compute_virial At (fc, tv) triangle = Some (fc', tv') /\
    forall idx, idx ∈ [idx_a; idx_b; idx_c] -> (idx < getN pd)%N ->
    exists f f',
      at_index (m_force fc) idx = Some f /\
      at_index (m_force fc') idx = Some f' /\
      w4 f' = w4 f + energy_pp.
Proof.
  intros Hr Ha Hb Hc HK Hsz Hab Hac Hbc area2 energy_pp.
  destruct (triangle_step_is_Some pd compute_virial At fc tv triangle _ _ _ _ _ _ _
              Hr Ha Hb Hc HK Hsz) as (fc' & tv' & Hs).
  exists fc', tv'. split; [exact Hs|]. intros idx Hin Ho.
  rewrite !elem_of_cons, elem_of_nil in Hin.
  destruct Hin as [ -> | [ -> | [ -> | [] ] ] ].
  - destruct (force_received_a Hr Ha Hb Hc HK Hs Ho Hab Hac) as (f & Hf & Hf').
    exists f. eexists. split; [done|]. split; [exact Hf'|reflexivity].
  - destruct (force_received_b Hr Ha Hb Hc HK Hs Ho Hab Hbc) as (f & Hf & Hf').
    exists f. eexists. split; [done|]. split; [exact Hf'|reflexivity].
  - destruct (force_received_c Hr Ha Hb Hc HK Hs Ho Hac Hbc) as (f & Hf & Hf').
    exists f. eexists. split; [done|]. split; [exact Hf'|reflexivity].
Qed.

(** C2. On every triangle the forces accumulated on the corners are the
    closed forms [Fa = prefactor ((rabrac - rsqac) dab + (rabrac - rsqab) dac)],
    [Fb = prefactor (rsqac dab - rabrac dac)] and
    [Fc = prefactor (rsqab dac - rabrac dab)], with
    [prefactor = - K / (2 At area2) (area2/2 - At)] and [dab], [dac] the
    minimum images of the edges. (Corners are distinct particles, and the
    accumulators hold a cell for every owned particle.) *)
Theorem forces_closed_form
    (pd : ParticleData Scalar) (compute_virial : bool) (At : Scalar)
    (fc : ForceCompute Scalar) (tv : Virial6 Scalar)
    (triangle : members_t) (idx_a idx_b idx_c : N)
    (pa pb pc : Scalar4 Scalar) (K0 : Scalar) :
  resolve pd triangle = Some (idx_a, idx_b, idx_c) ->
  at_index (h_pos pd) idx_a = Some pa ->
  at_index (h_pos pd) idx_b = Some pb ->
  at_index (h_pos pd) idx_c = Some pc ->
  at_index (m_K fc) 0%N = Some K0 ->
  accumulators_sized pd fc ->
  idx_a <> idx_b -> idx_a <> idx_c -> idx_b <> idx_c ->
  let dab := minImage (getGlobalBox pd) (delta pa pb) in
  let dac := minImage (getGlobalBox pd) (delta pa pc) in
  let rsqab := dot dab dab in
  let rsqac := dot dac dac in
  let rabrac := dot dab dac in
  let area2 := s_sqrt (rsqab * rsqac - rabrac * rabrac) in
  let prefactor := - K0 / (2 * At * area2) * (area2 / 2 - At) in
  let Fa := make_scalar3
    (prefactor * ((rabrac - rsqac) * x3 dab + (rabrac - rsqab) * x3 dac))
    (prefactor * ((rabrac - rsqac) * y3 dab + (rabrac - rsqab) * y3 dac))
    (prefactor * ((rabrac - rsqac) * z3 dab + (rabrac - rsqab) * z3 dac)) in
  let Fb := make_scalar3
    (prefactor * (rsqac * x3 dab - rabrac * x3 dac))
    (prefactor * (rsqac * y3 dab - rabrac * y3 dac))
    (prefactor * (rsqac * z3 dab - rabrac * z3 dac)) in
  let Fc := make_scalar3
    (prefactor * (rsqab * x3 dac - rabrac * x3 dab))
    (prefactor * (rsqab * y3 dac - rabrac * y3 dab))
    (prefactor * (rsqab * z3 dac - rabrac * z3 dab)) in
  exists fc' tv',
    triangle_step pd compute_virial At (fc, tv) triangle = Some (fc', tv') /\
    let receives idx F :=
      (idx < getN pd)%N ->
      exists f f',
        at_index (m_force fc) idx = Some f /\
        at_index (m_force fc') idx = Some f' /\
        xyz f' = v_add (xyz f) F in
    receives idx_a Fa /\ receives idx_b Fb /\ receives idx_c Fc.
Proof.
  intros Hr Ha Hb Hc HK Hsz Hab Hac Hbc. cbv zeta.
  destruct (triangle_step_is_Some pd compute_virial At fc tv triangle _ _ _ _ _ _ _
              Hr Ha Hb Hc HK Hsz) as (fc' & tv' & Hs).
  exists fc', tv'. split; [exact Hs|].
  split; [|split]; intros Ho.
  - destruct (force_received_a Hr Ha Hb Hc HK Hs Ho Hab Hac) as (f & Hf & Hf').
    exists f. eexists. split; [done|]. split; [exact Hf'|reflexivity].
  - destruct (force_received_b Hr Ha Hb Hc HK Hs Ho Hab Hbc) as (f & Hf & Hf').
    exists f. eexists. split; [done|]. split; [exact Hf'|reflexivity].
  - destruct (force_received_c Hr Ha Hb Hc HK Hs Ho Hac Hbc) as (f & Hf & Hf').
    exists f. eexists. split; [done|]. split; [exact Hf'|reflexivity].
Qed.

(** The six components of the local virial array, in the order of its
    cells, as they are added to the six virial cells of a corner. *)
Lemma virial_received_cells (fc fc' : ForceCompute Scalar) (idx : N)
    (compute_virial : bool) (tv : Virial6 Scalar) (p : Scalar4 Scalar)
    (F : Scalar3 Scalar) :
  virial_received fc fc' idx (corner_virial compute_virial tv p F) ->
  forall (j : nat) (w : Scalar),
    (if compute_virial
     then [1 / 2 * x4 p * x3 F; 1 / 2 * y4 p * x3 F; 1 / 2 * z4 p * x3 F;
           1 / 2 * y4 p * y3 F; 1 / 2 * z4 p * y3 F; 1 / 2 * z4 p * z3 F]
     else [v_xx tv; v_xy tv; v_xz tv; v_yy tv; v_yz tv; v_zz tv]) !! j = Some w ->
    exists v,
      at_index (m_virial fc) (N.of_nat j * virial_pitch fc + idx) = Some v /\
      at_index (m_virial fc') (N.of_nat j * virial_pitch fc + idx) = Some (v + w).
Proof.
  intros Hv j w Hj.
  assert (j < 6)%nat as Hlt.
  { apply lookup_lt_Some in Hj. destruct compute_virial; exact Hj. }
  destruct (Hv (N.of_nat j) ltac:(lia)) as (v & Hc & Hc').
  exists v. split; [exact Hc|]. rewrite Hc'. f_equal. f_equal.
  unfold corner_virial.
  do 6 (destruct j as [|j];
        [destruct compute_virial; cbn in Hj; injection Hj as <-; reflexivity|]).
  lia.
Qed.

(** C6. Every triangle, and so every triangle with a ghost corner, adds its
    [area2/2] to the total area; each owned corner has its force added to
    the x, y and z of its force cell, the energy to the w, and the six
    components of the local virial array to its six virial cells; nothing is
    written to the force, energy or virial of a particle whose index is at
    or beyond the number of owned particles. (Corners are distinct
    particles, and the accumulators hold a cell for every owned particle.) *)
Theorem ghost_corners_not_written
    (pd : ParticleData Scalar) (compute_virial : bool) (At : Scalar)
    (fc : ForceCompute Scalar) (tv : Virial6 Scalar)
    (triangle : members_t) (idx_a idx_b idx_c : N)
    (pa pb pc : Scalar4 Scalar) (K0 : Scalar) :
  resolve pd triangle = Some (idx_a, idx_b, idx_c) ->
  at_index (h_pos pd) idx_a = Some pa ->
  at_index (h_pos pd) idx_b = Some pb ->
  at_index (h_pos pd) idx_c = Some pc ->
  at_index (m_K fc) 0%N = Some K0 ->
  accumulators_sized pd fc ->
  idx_a <> idx_b -> idx_a <> idx_c -> idx_b <> idx_c ->
  let t := triangle_terms (getGlobalBox pd) K0 At pa pb pc in
  let energy_pp := t_energy_pp t in
  let local_virial (p : Scalar4 Scalar) (F : Scalar3 Scalar) : list Scalar :=
    if compute_virial
    then [1 / 2 * x4 p * x3 F; 1 / 2 * y4 p * x3 F; 1 / 2 * z4 p * x3 F;
          1 / 2 * y4 p * y3 F; 1 / 2 * z4 p * y3 F; 1 / 2 * z4 p * z3 F]
    else [v_xx tv; v_xy tv; v_xz tv; v_yy tv; v_yz tv; v_zz tv] in
  exists fc' tv',
    triangle_step pd compute_virial At (fc, tv) triangle = Some (fc', tv') /\
    let owned_receives idx p F :=
      (idx < getN pd)%N ->
      (exists f f',
         at_index (m_force fc) idx = Some f /\
         at_index (m_force fc') idx = Some f' /\
         x4 f' = x4 f + x3 F /\ y4 f' = y4 f + y3 F /\ z4 f' = z4 f + z3 F /\
         w4 f' = w4 f + energy_pp) /\
      (forall (j : nat) (w : Scalar), local_virial p F !! j = Some w ->
       exists v,
         at_index (m_virial fc) (N.of_nat j * virial_pitch fc + idx) = Some v /\
         at_index (m_virial fc') (N.of_nat j * virial_pitch fc + idx)
         = Some (v + w)) in
    m_area fc' = m_area fc + t_area2 t / 2 /\
    owned_receives idx_a pa (t_Fa t) /\
    owned_receives idx_b pb (t_Fb t) /\
    owned_receives idx_c pc (t_Fc t) /\
    forall i, (getN pd <= i)%N ->
      at_index (m_force fc') i = at_index (m_force fc) i /\
      ((i < virial_pitch fc)%N ->
       forall j, at_index (m_virial fc') (j * virial_pitch fc + i)
                 = at_index (m_virial fc) (j * virial_pitch fc + i)).
Proof.
  intros Hr Ha Hb Hc HK Hsz Hab Hac Hbc. cbv zeta.
  destruct (triangle_step_is_Some pd compute_virial At fc tv triangle _ _ _ _ _ _ _
              Hr Ha Hb Hc HK Hsz) as (fc' & tv' & Hs).
  destruct Hsz as (_ & Hl & _).
  assert (forall idx F e, force_received fc fc' idx F e ->
            exists f f',
              at_index (m_force fc) idx = Some f /\
              at_index (m_force fc') idx = Some f' /\
              x4 f' = x4 f + x3 F /\ y4 f' = y4 f + y3 F /\ z4 f' = z4 f + z3 F /\
              w4 f' = w4 f + e) as Hcell.
  { intros idx F e (f & Hf & Hf'). exists f. eexists.
    split; [exact Hf|]. split; [exact Hf'|]. repeat split. }
  exists fc', tv'. split; [exact Hs|].
  split; [apply (triangle_step_keeps Hr Ha Hb Hc HK Hs)|].
  split; [intros Ho; split;
          [apply Hcell, (force_received_a Hr Ha Hb Hc HK Hs); done
          |apply virial_received_cells, (virial_received_a Hr Ha Hb Hc HK Hs); done]|].
  split; [intros Ho; split;
          [apply Hcell, (force_received_b Hr Ha Hb Hc HK Hs); done
          |apply virial_received_cells, (virial_received_b Hr Ha Hb Hc HK Hs); done]|].
  split; [intros Ho; split;
          [apply Hcell, (force_received_c Hr Ha Hb Hc HK Hs); done
          |apply virial_received_cells, (virial_received_c Hr Ha Hb Hc HK Hs); done]|].
  intros i Hg. split.
  - apply (triangle_step_ghost_force Hr Ha Hb Hc HK Hs); done.
  - intros Hi j. apply (triangle_step_ghost_virial Hr Ha Hb Hc HK Hs); done.
Qed.

(** ** The whole pass leaves the ghosts at zero *)

Lemma triangle_step_resolved (pd : ParticleData Scalar) (compute_virial : bool)
    (At : Scalar) (fc fc' : ForceCompute Scalar) (tv tv' : Virial6 Scalar)
    (triangle : members_t) :
  triangle_step pd compute_virial At (fc, tv) triangle = Some (fc', tv') ->
  exists idx_a idx_b idx_c pa pb pc K0,
    resolve pd triangle = Some (idx_a, idx_b, idx_c) /\
    at_index (h_pos pd) idx_a = Some pa /\
    at_index (h_pos pd) idx_b = Some pb /\
    at_index (h_pos pd) idx_c = Some pc /\
    at_index (m_K fc) 0%N = Some K0.
Proof.
  intros Hs. unfold triangle_step in Hs.
  destruct (resolve pd triangle) as [[[idx_a idx_b] idx_c]|]; [|discriminate].
  cbn [mbind option_bind] in Hs.
  apply bind_Some in Hs as (pa & Ha & Hs).
  apply bind_Some in Hs as (pb & Hb & Hs).
  apply bind_Some in Hs as (pc & Hc & Hs).
  apply bind_Some in Hs as (K0 & HK0 & _).
  exists idx_a, idx_b, idx_c, pa, pb, pc, K0. done.
Qed.

Lemma triangle_loop_ghost_force (pd : ParticleData Scalar) (compute_virial : bool)
    (At : Scalar) (triangles : list members_t) (i : N) :
  (getN pd <= i)%N ->
  forall (fc fc' : ForceCompute Scalar) (tv tv' : Virial6 Scalar),
  triangle_loop pd compute_virial At triangles (fc, tv) = Some (fc', tv') ->
  at_index (m_force fc') i = at_index (m_force fc) i.
Proof.
  intros Hg. induction triangles as [|triangle rest IH]; intros fc fc' tv tv' Hl.
  - by injection Hl as <- _.
  - cbn [triangle_loop] in Hl. apply bind_Some in Hl as ([fc1 tv1] & Hs & Hl).
    rewrite (IH _ _ _ _ Hl).
    destruct (triangle_step_resolved _ _ _ _ _ _ _ _ Hs)
      as (idx_a & idx_b & idx_c & pa & pb & pc & K0 & Hr & Ha & Hb & Hc & HK).
    by apply (triangle_step_ghost_force Hr Ha Hb Hc HK Hs).
Qed.

(** After a pass the force and the energy of every ghost are zero. *)
Lemma computeForces_ghost_force (pd : ParticleData Scalar) (mesh : MeshTriangleData)
    (fc fc' : ForceCompute Scalar) (i : N) :
  computeForces pd mesh fc = Some fc' ->
  (getN pd <= i)%N -> (N.to_nat i < length (m_force fc))%nat ->
  at_index (m_force fc') i = Some zero4.
Proof.
  unfold computeForces. intros Hc Hg Hi.
  apply bind_Some in Hc as (At & _ & Hc).
  apply bind_Some in Hc as ([fc1 tv1] & Hl & Hc).
  injection Hc as <-. cbn [fst].
  rewrite (triangle_loop_ghost_force _ _ _ _ _ Hg _ _ _ _ Hl).
  cbn [m_force set_area set_accumulators]. unfold at_index.
  by apply lookup_replicate_2.
Qed.

(** ** The whole pass reads the parameters of type 0 only *)

Lemma apply_vertex_set_params (pd : ParticleData Scalar) (idx : N) (F : Scalar3 Scalar)
    (e : Scalar) (tv : Virial6 Scalar) (fc : ForceCompute Scalar) (K' A' : list Scalar) :
  apply_vertex pd idx F e tv (set_params fc K' A')
  = (fun r => set_params r K' A') <$> apply_vertex pd idx F e tv fc.
Proof.
  unfold apply_vertex. destruct (idx <? getN pd)%N; [|reflexivity].
  change (m_force (set_params fc K' A')) with (m_force fc).
  change (m_virial (set_params fc K' A')) with (m_virial fc).
  change (virial_pitch (set_params fc K' A')) with (virial_pitch fc).
  destruct (modify_at (m_force fc) idx (add_force F e)) as [force'|]; [|reflexivity].
  cbn [mbind option_bind].
  destruct (add_virial (virial_pitch fc) idx tv virial_rows (m_virial fc)) as [virial'|];
    reflexivity.
Qed.

Lemma triangle_step_set_params (pd : ParticleData Scalar) (compute_virial : bool)
    (At : Scalar) (fc : ForceCompute Scalar) (tv : Virial6 Scalar) (triangle : members_t)
    (K' A' : list Scalar) :
  at_index K' 0%N = at_index (m_K fc) 0%N ->
  triangle_step pd compute_virial At (set_params fc K' A', tv) triangle
  = (fun st => (set_params (fst st) K' A', snd st))
    <$> triangle_step pd compute_virial At (fc, tv) triangle.
Proof.
  intros HK. unfold triangle_step.
  destruct (resolve pd triangle) as [[[idx_a idx_b] idx_c]|]; [|reflexivity].
  cbn [mbind option_bind].
  destruct (at_index (h_pos pd) idx_a) as [pa|]; [|reflexivity].
  destruct (at_index (h_pos pd) idx_b) as [pb|]; [|reflexivity].
  destruct (at_index (h_pos pd) idx_c) as [pc|]; [|reflexivity].
  cbn [mbind option_bind].
  change (m_K (set_params fc K' A')) with K'. rewrite HK.
  destruct (at_index (m_K fc) 0%N) as [K0|]; [|reflexivity].
  cbn [mbind option_bind].
  change (m_area (set_params fc K' A')) with (m_area fc).
  set (t := triangle_terms (getGlobalBox pd) K0 At pa pb pc).
  change (set_area (set_params fc K' A') (m_area fc + t_area2 t / 2))
    with (set_params (set_area fc (m_area fc + t_area2 t / 2)) K' A').
  rewrite apply_vertex_set_params.
  destruct (apply_vertex pd idx_a _ _ _ _) as [fc1|]; [|reflexivity].
  cbn [mbind option_bind fmap option_fmap option_map].
  rewrite apply_vertex_set_params.
  destruct (apply_vertex pd idx_b _ _ _ _) as [fc2|]; [|reflexivity].
  cbn [mbind option_bind fmap option_fmap option_map].
  rewrite apply_vertex_set_params.
  destruct (apply_vertex pd idx_c _ _ _ _) as [fc3|]; reflexivity.
Qed.

Lemma triangle_loop_set_params (pd : ParticleData Scalar) (compute_virial : bool)
    (At : Scalar) (triangles : list members_t) (K' A' : list Scalar) :
  forall (fc : ForceCompute Scalar) (tv : Virial6 Scalar),
  at_index K' 0%N = at_index (m_K fc) 0%N ->
  triangle_loop pd compute_virial At triangles (set_params fc K' A', tv)
  = (fun st => (set_params (fst st) K' A', snd st))
    <$> triangle_loop pd compute_virial At triangles (fc, tv).
Proof.
  induction triangles as [|triangle rest IH]; intros fc tv HK; [reflexivity|].
  cbn [triangle_loop]. rewrite (triangle_step_set_params _ _ _ _ _ _ _ _ HK).
  destruct (triangle_step pd compute_virial At (fc, tv) triangle) as [[fc1 tv1]|] eqn:Hs;
    [|reflexivity].
  cbn [mbind option_bind fmap option_fmap option_map fst snd].
  apply IH.
  destruct (resolve pd triangle) as [[[idx_a idx_b] idx_c]|] eqn:Hr;
    [|unfold triangle_step in Hs; rewrite Hr in Hs; discriminate].
  unfold triangle_step in Hs. rewrite Hr in Hs. cbn [mbind option_bind] in Hs.
  apply bind_Some in Hs as (pa & Ha & Hs).
  apply bind_Some in Hs as (pb & Hb & Hs).
  apply bind_Some in Hs as (pc & Hc & Hs).
  apply bind_Some in Hs as (K0 & HK0 & Hs).
  apply bind_Some in Hs as (g1 & H1 & Hs).
  apply bind_Some in Hs as (g2 & H2 & Hs).
  apply bind_Some in Hs as (g3 & H3 & Hs).
  injection Hs as <- _.
  apply apply_vertex_keeps in H1 as (K1 & _).
  apply apply_vertex_keeps in H2 as (K2 & _).
  apply apply_vertex_keeps in H3 as (K3 & _).
  rewrite K3, K2, K1. exact HK.
Qed.

(** The force cell of any particle after one triangle is what
    [triangle_share] makes of it. *)
Lemma triangle_step_share (pd : ParticleData Scalar) (compute_virial : bool)
    (At : Scalar) (fc fc' : ForceCompute Scalar) (tv tv' : Virial6 Scalar)
    (triangle : members_t) (K0 : Scalar) (i : N) (f : Scalar4 Scalar) :
  triangle_step pd compute_virial At (fc, tv) triangle = Some (fc', tv') ->
  at_index (m_K fc) 0%N = Some K0 ->
  at_index (m_force fc) i = Some f ->
  at_index (m_force fc') i = Some (triangle_share pd K0 At triangle i f).
Proof.
  intros Hs HK Hf.
  destruct (triangle_step_resolved _ _ _ _ _ _ _ _ Hs)
    as (idx_a & idx_b & idx_c & pa & pb & pc & K0' & Hr & Ha & Hb & Hc & HK').
  rewrite HK in HK'. injection HK' as <-.
  rewrite (triangle_step_force_at _ _ _ _ _ _ _ _ _ _ _ _ _ _ _ Hr Ha Hb Hc HK Hs).
  cbv zeta. rewrite Hf. unfold triangle_share. rewrite Hr, Ha, Hb, Hc.
  destruct ((idx_a <? getN pd) && (i =? idx_a))%N,
           ((idx_b <? getN pd) && (i =? idx_b))%N,
           ((idx_c <? getN pd) && (i =? idx_c))%N; reflexivity.
Qed.

Lemma triangle_loop_share (pd : ParticleData Scalar) (compute_virial : bool)
    (At : Scalar) (K0 : Scalar) (i : N) (triangles : list members_t) :
  forall (fc fc' : ForceCompute Scalar) (tv tv' : Virial6 Scalar) (f : Scalar4 Scalar),
  triangle_loop pd compute_virial At triangles (fc, tv) = Some (fc', tv') ->
  at_index (m_K fc) 0%N = Some K0 ->
  at_index (m_force fc) i = Some f ->
  at_index (m_force fc') i = Some (mesh_share pd K0 At triangles i f).
Proof.
  induction triangles as [|triangle rest IH]; intros fc fc' tv tv' f Hl HK Hf.
  - injection Hl as <- _. exact Hf.
  - cbn [triangle_loop] in Hl. apply bind_Some in Hl as ([fc1 tv1] & Hs & Hl).
    unfold mesh_share. cbn [fold_left].
    apply (IH _ _ _ _ _ Hl).
    + destruct (triangle_step_resolved _ _ _ _ _ _ _ _ Hs)
        as (idx_a & idx_b & idx_c & pa & pb & pc & K0' & Hr & Ha & Hb & Hc & HK').
      destruct (triangle_step_keeps Hr Ha Hb Hc HK' Hs) as (-> & _). exact HK.
    + by apply (triangle_step_share _ _ _ _ _ _ _ _ _ _ _ Hs).
Qed.

(** Where every triangle resolves to particles with a position, the loop
    runs to its end. *)
Lemma triangle_loop_is_Some (pd : ParticleData Scalar) (compute_virial : bool)
    (At : Scalar) (K0 : Scalar) (triangles : list members_t) :
  Forall (fun triangle => is_Some (triangle_area2 pd triangle)) triangles ->
  forall (fc : ForceCompute Scalar) (tv : Virial6 Scalar),
  at_index (m_K fc) 0%N = Some K0 ->
  accumulators_sized pd fc ->
  is_Some (triangle_loop pd compute_virial At triangles (fc, tv)).
Proof.
  induction 1 as [|triangle rest Ht _ IH]; intros fc tv HK Hsz; [by eexists|].
  cbn [triangle_loop].
  assert (exists idx_a idx_b idx_c pa pb pc,
            resolve pd triangle = Some (idx_a, idx_b, idx_c) /\
            at_index (h_pos pd) idx_a = Some pa /\
            at_index (h_pos pd) idx_b = Some pb /\
            at_index (h_pos pd) idx_c = Some pc)
    as (idx_a & idx_b & idx_c & pa & pb & pc & Hr & Ha & Hb & Hc).
  { destruct Ht as [a Ht]. unfold triangle_area2 in Ht.
    destruct (resolve pd triangle) as [[[idx_a idx_b] idx_c]|]; [|discriminate].
    cbn [mbind option_bind] in Ht.
    apply bind_Some in Ht as (pa & Ha & Ht).
    apply bind_Some in Ht as (pb & Hb & Ht).
    apply bind_Some in Ht as (pc & Hc & _).
    exists idx_a, idx_b, idx_c, pa, pb, pc. done. }
  destruct (triangle_step_is_Some pd compute_virial At fc tv triangle _ _ _ _ _ _ _
              Hr Ha Hb Hc HK Hsz) as (fc1 & tv1 & Hs).
  rewrite Hs. cbn [mbind option_bind].
  destruct (triangle_step_keeps Hr Ha Hb Hc HK Hs) as (EK & _ & EP & _ & EF & EV).
  apply IH.
  - by rewrite EK.
  - unfold accumulators_sized in *. by rewrite EP, EF, EV.
Qed.

(** C3. On every pass the target of one triangle is the [A_mesh] stored at
    index 0 divided by the number of all triangles of the mesh, and the
    stiffness is the [K] stored at index 0: the pass returns, and the force
    and energy it leaves on a particle are the sum, in mesh order, of what
    each triangle adds under [At = A_mesh[0] / size] and [K = K[0]],
    [prefactor] and [energy_pp] being formed from these two. The types of
    the triangles and the parameters at the other indices are not read: a
    pass over the same triangles under other types, with other parameters at
    every index but 0, leaves the same forces, energies, virial and area.
    (Every triangle resolves to particles with a position, and the
    accumulators hold a cell for every owned particle.) *)
Theorem type_zero_parameters_only
    (pd : ParticleData Scalar) (mesh : MeshTriangleData)
    (fc : ForceCompute Scalar) (K0 A0 : Scalar) :
  at_index (m_K fc) 0%N = Some K0 ->
  at_index (m_Amesh fc) 0%N = Some A0 ->
  accumulators_sized pd fc ->
  Forall (fun triangle => is_Some (triangle_area2 pd triangle)) (members mesh) ->
  let size := s_lit (Z.of_nat (length (members mesh))) in
  let At := A0 / size in
  exists fc',
    computeForces pd mesh fc = Some fc' /\
    (forall i, (N.to_nat i < length (m_force fc))%nat ->
       at_index (m_force fc') i
       = Some (mesh_share pd K0 At (members mesh) i zero4)) /\
    (forall (mesh' : MeshTriangleData) (K' A' : list Scalar),
       members mesh' = members mesh ->
       at_index K' 0%N = Some K0 -> at_index A' 0%N = Some A0 ->
       computeForces pd mesh' (set_params fc K' A') = Some (set_params fc' K' A')).
Proof.
  intros HK HA Hsz Hall. cbv zeta.
  set (fc0 := set_area (set_accumulators fc (replicate (length (m_force fc)) zero4)
                                            (replicate (length (m_virial fc)) 0)) 0).
  set (At := A0 / s_lit (Z.of_nat (length (members mesh)))).
  assert (accumulators_sized pd fc0) as Hsz0.
  { unfold accumulators_sized, fc0 in *.
    cbn [m_force m_virial virial_pitch set_area set_accumulators].
    by rewrite !length_replicate. }
  destruct (triangle_loop_is_Some pd (pressure_tensor pd) At K0 (members mesh) Hall
              fc0 virial_zero HK Hsz0) as [[fc' tv'] Hl].
  assert (forall (mesh' : MeshTriangleData) (K' A' : list Scalar),
            members mesh' = members mesh ->
            at_index K' 0%N = Some K0 -> at_index A' 0%N = Some A0 ->
            computeForces pd mesh' (set_params fc K' A') = Some (set_params fc' K' A'))
    as Hany.
  { intros mesh' K' A' Hm HK' HA'. unfold computeForces, target_area, mesh_getN.
    change (m_Amesh (set_accumulators (set_params fc K' A') _ _)) with A'.
    rewrite HA', Hm. cbn [mbind option_bind]. rewrite nat_N_Z. fold At.
    match goal with
    | |- context [triangle_loop pd ?cv At ?ms (?st, ?tv)] =>
        change st with (set_params fc0 K' A')
    end.
    rewrite triangle_loop_set_params by (by rewrite HK').
    rewrite Hl. reflexivity. }
  exists fc'. split; [|split; [|exact Hany]].
  - unfold computeForces, target_area, mesh_getN.
    change (m_Amesh (set_accumulators fc _ _)) with (m_Amesh fc).
    rewrite HA. cbn [mbind option_bind]. rewrite nat_N_Z. fold At. fold fc0.
    rewrite Hl. reflexivity.
  - intros i Hi.
    apply (triangle_loop_share _ _ _ _ _ _ _ _ _ _ _ Hl HK).
    unfold fc0. cbn [m_force set_area set_accumulators]. unfold at_index.
    by apply lookup_replicate_2.
Qed.


(** ** [energyDiff] *)

Lemma energyDiff_value (pd : ParticleData Scalar) (fc : ForceCompute Scalar)
    (idx_a idx_b idx_c idx_d type_id : N) (pa pb pc pd' : Scalar4 Scalar)
    (At K0 A0 : Scalar) :
  at_index (h_pos pd) idx_a = Some pa ->
  at_index (h_pos pd) idx_b = Some pb ->
  at_index (h_pos pd) idx_c = Some pc ->
  at_index (h_pos pd) idx_d = Some pd' ->
  at_index (m_Amesh fc) type_id = Some At ->
  at_index (m_K fc) 0%N = Some K0 ->
  at_index (m_Amesh fc) 0%N = Some A0 ->
  energyDiff pd fc idx_a idx_b idx_c idx_d type_id
  = Some (energy_delta (flip_geometry (getGlobalBox pd) pa pb pc pd') K0 A0 At, fc).
Proof.
  intros Ha Hb Hc Hd HAt HK HA. unfold energyDiff.
  rewrite Ha, Hb, Hc, Hd. cbn [mbind option_bind].
  rewrite HAt, HK. cbn [mbind option_bind]. rewrite HA. reflexivity.
Qed.

(** The call leaves the force compute as it found it. *)
Lemma energyDiff_pure (pd : ParticleData Scalar) (fc fc' : ForceCompute Scalar)
    (idx_a idx_b idx_c idx_d type_id : N) (r : Scalar) :
  energyDiff pd fc idx_a idx_b idx_c idx_d type_id = Some (r, fc') -> fc' = fc.
Proof.
  unfold energyDiff. intros He.
  repeat (apply bind_Some in He as (? & _ & He)).
  by injection He as _ <-.
Qed.

(** C7, amended. For four particle indices and a type index whose target
    area is the one stored at index 0 (type 0 itself, for one), [energyDiff]
    returns [K/(2 A0)] times
    [(area_acd - A0)^2 + (area_bcd - A0)^2 - (area_abc - A0)^2 - (area_abd - A0)^2],
    [K] and [A0] being the parameters at index 0 and each area half the
    product of two edge lengths and the sine of their clamped angle; for
    every type index the call changes no force, energy, virial or area
    accumulator. *)
Theorem energyDiff_single_type
    (pd : ParticleData Scalar) (fc : ForceCompute Scalar)
    (idx_a idx_b idx_c idx_d type_id : N) (pa pb pc pd' : Scalar4 Scalar)
    (K0 A0 : Scalar) :
  at_index (h_pos pd) idx_a = Some pa ->
  at_index (h_pos pd) idx_b = Some pb ->
  at_index (h_pos pd) idx_c = Some pc ->
  at_index (h_pos pd) idx_d = Some pd' ->
  at_index (m_K fc) 0%N = Some K0 ->
  at_index (m_Amesh fc) 0%N = Some A0 ->
  (at_index (m_Amesh fc) type_id = Some A0 ->
   energyDiff pd fc idx_a idx_b idx_c idx_d type_id
   = Some (energy_delta_spec (flip_geometry (getGlobalBox pd) pa pb pc pd') K0 A0, fc)) /\
  (forall r fc',
     energyDiff pd fc idx_a idx_b idx_c idx_d type_id = Some (r, fc') -> fc' = fc).
Proof.
  intros Ha Hb Hc Hd HK HA. split.
  - intros HAt. rewrite (energyDiff_value _ _ _ _ _ _ _ _ _ _ _ _ _ _ Ha Hb Hc Hd HAt HK HA).
    reflexivity.
  - intros r fc'. apply energyDiff_pure.
Qed.

(** C10. With a type index other than 0 the four deviations are taken from
    the target area stored at [type_id], while the scale is the stiffness
    and the target area stored at index 0 (the stiffness stored at [type_id]
    is not read); with [type_id = 0] the result is that of one type's
    parameters throughout. *)
Theorem energyDiff_mixes_type_indices
    (pd : ParticleData Scalar) (fc : ForceCompute Scalar)
    (idx_a idx_b idx_c idx_d type_id : N) (pa pb pc pd' : Scalar4 Scalar)
    (At K0 A0 : Scalar) :
  at_index (h_pos pd) idx_a = Some pa ->
  at_index (h_pos pd) idx_b = Some pb ->
  at_index (h_pos pd) idx_c = Some pc ->
  at_index (h_pos pd) idx_d = Some pd' ->
  at_index (m_Amesh fc) type_id = Some At ->
  at_index (m_K fc) 0%N = Some K0 ->
  at_index (m_Amesh fc) 0%N = Some A0 ->
  let g := flip_geometry (getGlobalBox pd) pa pb pc pd' in
  let area_abc := rab g * rac g * s_sqrt (1 - c_baac g * c_baac g) / 2 in
  let area_abd := rab g * rbd g * s_sqrt (1 - c_abbd g * c_abbd g) / 2 in
  let area_acd := rac g * rdc g * s_sqrt (1 - c_dcca g * c_dcca g) / 2 in
  let area_bcd := rdc g * rbd g * s_sqrt (1 - c_bddc g * c_bddc g) / 2 in
  let value :=
    K0 / (2 * A0)
    * ((area_acd - At) * (area_acd - At) + (area_bcd - At) * (area_bcd - At)
       - (area_abc - At) * (area_abc - At) - (area_abd - At) * (area_abd - At)) in
  energyDiff pd fc idx_a idx_b idx_c idx_d type_id = Some (value, fc) /\
  (forall K', at_index K' 0%N = Some K0 ->
     fst <$> energyDiff pd (set_params fc K' (m_Amesh fc)) idx_a idx_b idx_c idx_d type_id
     = Some value) /\
  (type_id = 0%N -> value = energy_delta_spec g K0 A0).
Proof.
  intros Ha Hb Hc Hd HAt HK HA. cbv zeta. split; [|split].
  - by rewrite (energyDiff_value _ _ _ _ _ _ _ _ _ _ _ _ _ _ Ha Hb Hc Hd HAt HK HA).
  - intros K' HK'.
    by rewrite (energyDiff_value pd (set_params fc K' (m_Amesh fc))
                  _ _ _ _ _ _ _ _ _ _ _ _ Ha Hb Hc Hd HAt HK' HA).
  - intros ->. rewrite HA in HAt. by injection HAt as <-.
Qed.

(** ** Parameters *)



End Facts.

(** ** The host side of the batched pass *)

(** C5, amended. When CUDA error checking is enabled, the caller reads the
    flag once the kernel has run and, if the lowest bit of the flag is set,
    reports an error that shows the raw value of the flag and throws; when
    error checking is disabled the flag is not looked at and the call returns
    normally. *)
Theorem flag_checked_when_error_checking {Scalar : Type} {MeshTables : Type}
    (kernel : @KernelArgs Scalar MeshTables -> @KernelResult Scalar)
    (isCUDAErrorCheckingEnabled : bool) (pd : ParticleData Scalar)
    (tables : MeshTables) (n_types : N) (fc : @ForceComputeGPU Scalar) :
  let r := kernel
             {| k_force := g_force fc; k_virial := g_virial fc;
                k_virial_pitch := g_virial_pitch fc; k_N := getN pd;
                k_pos := h_pos pd; k_box := getGlobalBox pd; k_tables := tables;
                k_params := m_params fc; k_n_types := n_types;
                k_block_size := m_tuner_param fc; k_flags := m_flags fc |} in
  computeForces_GPU kernel isCUDAErrorCheckingEnabled pd tables n_types fc
  = if isCUDAErrorCheckingEnabled && N.odd (r_flags r)
    then ([Error ("AreaConservation: triangle out of bounds ("
                  ++ show_uint (r_flags r) ++ ")")%string],
          Throw "Error in meshtriangle calculation")
    else ([], Ok {| g_force := r_force r; g_virial := r_virial r;
                    g_virial_pitch := g_virial_pitch fc; m_params := m_params fc;
                    m_flags := r_flags r; m_tuner_param := m_tuner_param fc |}).
Proof.
  cbv zeta. unfold computeForces_GPU. cbn [m_flags].
  destruct isCUDAErrorCheckingEnabled; [|reflexivity]. cbn [andb].
  set (flags := r_flags _). clearbody flags.
  destruct flags as [|[p|p|]]; reflexivity.
Qed.

(** ** Exact arithmetic *)

Section Rounding.
Variable rnd : R -> R.
Hypothesis rnd_monotone : forall x y, (x <= y)%R -> (rnd x <= rnd y)%R.
Hypothesis rnd_0 : rnd 0%R = 0%R.
Hypothesis rnd_1 : rnd 1%R = 1%R.


End Rounding.



(** The identity of Lagrange: [|u|^2 |v|^2 - (u.v)^2] is a sum of squares. *)
Lemma lagrange_nonneg (u v : Scalar3 R) :
  (0 <= dot u u * dot v v - dot u v * dot u v)%R.
Proof.
  destruct u as [x1 y1 z1], v as [x2 y2 z2].
  unfold dot. cbn [x3 y3 z3 s_add s_mul exact].
  replace (((x1 * x1 + y1 * y1 + z1 * z1) * (x2 * x2 + y2 * y2 + z2 * z2)
            - (x1 * x2 + y1 * y2 + z1 * z2) * (x1 * x2 + y1 * y2 + z1 * z2)))%R
    with ((x1 * y2 - y1 * x2) * (x1 * y2 - y1 * x2)
          + (x1 * z2 - z1 * x2) * (x1 * z2 - z1 * x2)
          + (y1 * z2 - z1 * y2) * (y1 * z2 - z1 * y2))%R by ring.
  pose proof (Rle_0_sqr (x1 * y2 - y1 * x2)).
  pose proof (Rle_0_sqr (x1 * z2 - z1 * x2)).
  pose proof (Rle_0_sqr (y1 * z2 - z1 * y2)).
  unfold Rsqr in *. lra.
Qed.

(** C4, amended. The geometry kernel hands [rsqab rsqac - rabrac^2] to the
    square root as it is, without a clamp; in exact arithmetic that quantity
    is never negative, [area2 >= 0], and [area2] is a square root of it. *)
Theorem area2_unclamped_exact (box : BoxDim R) (K0 At : R) (pa pb pc : Scalar4 R) :
  let t := triangle_terms box K0 At pa pb pc in
  let arg := (t_rsqab t * t_rsqac t - t_rabrac t * t_rabrac t)%R in
  t_area2 t = R_sqrt.sqrt arg /\
  (0 <= arg)%R /\ (0 <= t_area2 t)%R /\ (t_area2 t * t_area2 t = arg)%R.
Proof.
  cbv zeta. unfold triangle_terms.
  cbn [t_area2 t_rsqab t_rsqac t_rabrac]. unfold area2_of.
  cbn [s_sqrt s_sub s_mul exact].
  set (dab := minImage box (delta pa pb)). set (dac := minImage box (delta pa pc)).
  pose proof (lagrange_nonneg dab dac) as Hn.
  split; [reflexivity|]. split; [exact Hn|].
  split; [apply sqrt_pos|by apply sqrt_sqrt].
Qed.

(** ** The code run on the concrete systems (binary64) *)

(** The pass over [ghost_mesh]: the two owned corners hold their forces and
    the full energy 0.5 each, the ghost holds nothing, the area is 2. *)
Example ghost_pass :
  computeForces ghost_system ghost_mesh two_type_compute
  = Some {| m_K := [3; 5]%float; m_Amesh := [1; 7]%float;
            m_force := [make_scalar4 3 3 0 0.5; make_scalar4 (-3) 0 0 0.5;
                        make_scalar4 0 0 0 0]%float;
            m_virial := [0; -3; 0; 0; 0; 0; 0; 0; 0; 0; 0; 0; 0; 0; 0; 0; 0; 0]%float;
            virial_pitch := 3; m_area := 2%float |}.
Proof. vm_compute. reflexivity. Qed.

Lemma energy_added_in_full_witness :
  exists fc' tv',
    triangle_step ghost_system true 1%float (fresh_compute, virial_zero) ghost_triangle
    = Some (fc', tv') /\
    forall idx, idx ∈ [0; 1; 2]%N -> (idx < getN ghost_system)%N ->
    exists f f',
      at_index (m_force fresh_compute) idx = Some f /\
      at_index (m_force fc') idx = Some f' /\
      w4 f' = (w4 f + 0.5)%float.
Proof.
  apply (energy_added_in_full (ops := binary64) ghost_system true 1%float
           fresh_compute virial_zero ghost_triangle 0 1 2
           (position 0 0 0) (position 2 0 0) (position 0 2 0) 3%float
           eq_refl eq_refl eq_refl eq_refl eq_refl).
  - repeat split; vm_compute; lia || discriminate.
  - discriminate.
  - discriminate.
  - discriminate.
Defined.

Lemma forces_closed_form_witness :
  exists fc' tv',
    triangle_step ghost_system true 1%float (fresh_compute, virial_zero) ghost_triangle
    = Some (fc', tv') /\
    let receives idx F :=
      (idx < getN ghost_system)%N ->
      exists f f',
        at_index (m_force fresh_compute) idx = Some f /\
        at_index (m_force fc') idx = Some f' /\
        xyz f' = v_add (xyz f) F in
    receives 0%N (make_scalar3 3 3 0)%float /\
    receives 1%N (make_scalar3 (-3) (-0) (-0))%float /\
    receives 2%N (make_scalar3 (-0) (-3) (-0))%float.
Proof.
  apply (forces_closed_form (ops := binary64) ghost_system true 1%float
           fresh_compute virial_zero ghost_triangle 0 1 2
           (position 0 0 0) (position 2 0 0) (position 0 2 0) 3%float
           eq_refl eq_refl eq_refl eq_refl eq_refl).
  - repeat split; vm_compute; lia || discriminate.
  - discriminate.
  - discriminate.
  - discriminate.
Defined.

Lemma ghost_corners_not_written_witness :
  exists fc' tv',
    triangle_step ghost_system true 1%float (fresh_compute, virial_zero) ghost_triangle
    = Some (fc', tv') /\
    m_area fc' = 2%float /\
    (exists f f',
       at_index (m_force fresh_compute) 1 = Some f /\
       at_index (m_force fc') 1 = Some f' /\
       x4 f' = (x4 f + -3)%float /\ w4 f' = (w4 f + 0.5)%float) /\
    (exists v,
       at_index (m_virial fresh_compute) (0 * 3 + 1) = Some v /\
       at_index (m_virial fc') (0 * 3 + 1) = Some (v + 1 / 2 * 2 * -3)%float) /\
    at_index (m_force fc') 2 = at_index (m_force fresh_compute) 2 /\
    at_index (m_virial fc') (3 * 3 + 2) = at_index (m_virial fresh_compute) (3 * 3 + 2).
Proof.
  destruct (ghost_corners_not_written (ops := binary64) ghost_system true 1%float
              fresh_compute virial_zero ghost_triangle 0 1 2
              (position 0 0 0) (position 2 0 0) (position 0 2 0) 3%float
              eq_refl eq_refl eq_refl eq_refl eq_refl
              ltac:(repeat split; vm_compute; lia || discriminate)
              ltac:(discriminate) ltac:(discriminate) ltac:(discriminate))
    as (fc' & tv' & Hs & Harea & _ & Hb & _ & Hghost).
  destruct (Hb ltac:(vm_compute; reflexivity))
    as [(f & f' & Hf & Hf' & Hx & _ & _ & Hw) Hvir].
  destruct (Hvir 0%nat _ eq_refl) as (v & Hv & Hv').
  destruct (Hghost 2%N ltac:(vm_compute; discriminate)) as [Hforce Hvirial].
  exists fc', tv'. split; [exact Hs|]. split; [exact Harea|].
  split; [exists f, f'; repeat split; assumption|].
  split; [exists v; split; assumption|].
  split; [exact Hforce|].
  exact (Hvirial eq_refl 3%N).
Defined.

Lemma type_zero_parameters_only_witness :
  exists fc',
    computeForces flip_system flip_mesh flip_compute = Some fc' /\
    (forall i, (N.to_nat i < 4)%nat ->
       at_index (m_force fc') i
       = Some (mesh_share flip_system 2 (1 / 2) (members flip_mesh) i zero4)%float) /\
    (forall (mesh' : MeshTriangleData) (K' A' : list float),
       members mesh' = members flip_mesh ->
       at_index K' 0%N = Some 2%float -> at_index A' 0%N = Some 1%float ->
       computeForces flip_system mesh' (set_params flip_compute K' A')
       = Some (set_params fc' K' A')).
Proof.
  apply (type_zero_parameters_only (ops := binary64) flip_system flip_mesh flip_compute
           2%float 1%float eq_refl eq_refl).
  - repeat split; vm_compute; lia || discriminate.
  - repeat constructor; vm_compute; eauto.
Defined.

Lemma energyDiff_single_type_witness :
  energyDiff flip_system flip_compute 0 1 2 3 0
  = Some (energy_delta_spec flip_geometry_example 2%float 1%float, flip_compute).
Proof.
  apply (proj1 (energyDiff_single_type flip_system flip_compute 0 1 2 3 0
                  (position 0 0 0) (position 3 0 0) (position 0 3 0) (position (-1) 3 0)
                  2%float 1%float eq_refl eq_refl eq_refl eq_refl eq_refl eq_refl)).
  reflexivity.
Defined.

(** C7 fails for type 1 of [flip_compute]: the call returns about 12, where
    the formula gives about 9 with the parameters of type 1 and about -24
    with those of type 0. *)
Lemma energyDiff_type_one_counterexample :
  (exists r, energyDiff flip_system flip_compute 0 1 2 3 1 = Some (r, flip_compute) /\
             ((11.5 <? r) && (r <? 12.5))%float = true) /\
  ((8.5 <? energy_delta_spec flip_geometry_example 6 4)
   && (energy_delta_spec flip_geometry_example 6 4 <? 9.5))%float = true /\
  ((-24.5 <? energy_delta_spec flip_geometry_example 2 1)
   && (energy_delta_spec flip_geometry_example 2 1 <? -23.5))%float = true /\
  energyDiff flip_system flip_compute 0 1 2 3 1
    <> Some (energy_delta_spec flip_geometry_example 6%float 4%float, flip_compute) /\
  energyDiff flip_system flip_compute 0 1 2 3 1
    <> Some (energy_delta_spec flip_geometry_example 2%float 1%float, flip_compute).
Proof.
  split; [eexists; split; [vm_compute; reflexivity|vm_compute; reflexivity]|].
  split; [vm_compute; reflexivity|]. split; [vm_compute; reflexivity|].
  split; intros E;
    apply (f_equal (fun o => match o with
                             | Some (r, _) => PrimFloat.ltb 10 r
                             | None => false
                             end)) in E;
    vm_compute in E; discriminate.
Qed.

Lemma energyDiff_mixes_type_indices_witness :
  fst <$> energyDiff flip_system
            (set_params flip_compute [2; 100]%float (m_Amesh flip_compute)) 0 1 2 3 1
  = fst <$> energyDiff flip_system flip_compute 0 1 2 3 1.
Proof.
  destruct (energyDiff_mixes_type_indices flip_system flip_compute 0 1 2 3 1
              (position 0 0 0) (position 3 0 0) (position 0 3 0) (position (-1) 3 0)
              4%float 2%float 1%float
              eq_refl eq_refl eq_refl eq_refl eq_refl eq_refl eq_refl)
    as (Hv & Hk & _).
  rewrite (Hk [2; 100]%float eq_refl), Hv. reflexivity.
Defined.

(** C9. The round trip is lost for a registered triangle type whose index
    is not below the number of particle types. [ghost_mesh] registers the
    types "mesh" and "other"; with one particle type the constructor gives
    [m_K] and [m_Amesh] one entry each; "other" has index 1, which passes
    the guard of [getParams] (1 < 2): [setParams] for it writes past the end
    of both arrays and [getParams] reads past it. *)
Theorem params_round_trip_out_of_bounds :
  allocated one_type_system one_type_compute /\
  getTypeByName ghost_mesh "other" = Ok 1%N /\
  (mesh_getNTypes ghost_mesh <=? 1)%N = false /\
  setParams one_type_compute 1 2%float 3%float = ([], None) /\
  getParams ghost_mesh one_type_compute "other" = ([], Undefined).
Proof. repeat split. Qed.


(** C5 fails with error checking disabled: the kernel raised the flag, and
    the call returns normally without a word. *)
Lemma flag_unchecked_counterexample :
  exists fc',
    computeForces_GPU faulting_kernel false flip_system tt 2 gpu_compute = ([], Ok fc') /\
    m_flags fc' = 1%N.
Proof. eexists. split; reflexivity. Qed.

(** With error checking enabled the same run ends in the error. *)
Example flag_checked_example :
  computeForces_GPU faulting_kernel true flip_system tt 2 gpu_compute
  = ([Error "AreaConservation: triangle out of bounds (1)"],
     Throw "Error in meshtriangle calculation").
Proof. reflexivity. Qed.

(** C4 fails on three collinear particles: in binary64 the quantity under
    the square root is negative, nothing clamps it, and [area2] is not a
    number: [0 <= area2] does not hold. The clamped kernel of the
    specification would have returned 0. *)
Lemma area2_negative_argument_counterexample :
  (t_rsqab collinear_terms * t_rsqac collinear_terms
   - t_rabrac collinear_terms * t_rabrac collinear_terms <? 0)%float = true /\
  (0 <=? t_area2 collinear_terms)%float = false /\
  PrimFloat.is_nan (t_area2 collinear_terms) = true /\
  area2_clamped (t_rsqab collinear_terms) (t_rsqac collinear_terms)
                (t_rabrac collinear_terms) = 0%float.
Proof. repeat split; vm_compute; reflexivity. Qed.

(** The clamp at work in binary64: a cosine that round-off left above 1. *)
Example clamp_above_one : clamp 1.0000000000000002%float = 1%float.
Proof. reflexivity. Qed.

(** * Further properties of the code *)

Arguments triangle_step_keeps {Scalar ops pd compute_virial At fc fc' tv tv' triangle
  idx_a idx_b idx_c pa pb pc K0}.
Arguments triangle_step_force_at {Scalar ops pd compute_virial At fc fc' tv tv' triangle
  idx_a idx_b idx_c pa pb pc K0}.
Arguments triangle_step_virial_at {Scalar ops pd compute_virial At fc fc' tv tv' triangle
  idx_a idx_b idx_c pa pb pc K0}.
Arguments triangle_step_inv {Scalar ops pd compute_virial At fc fc' tv tv' triangle
  idx_a idx_b idx_c pa pb pc K0}.

Section Pass.
Context {Scalar : Type} {ops : ScalarOps Scalar}.
Local Open Scope scalar_scope.

(** ** What a pass keeps *)

Lemma triangle_step_keeps_all (pd : ParticleData Scalar) (compute_virial : bool)
    (At : Scalar) (fc fc' : ForceCompute Scalar) (tv tv' : Virial6 Scalar)
    (triangle : members_t) :
  triangle_step pd compute_virial At (fc, tv) triangle = Some (fc', tv') ->
  m_K fc' = m_K fc /\ m_Amesh fc' = m_Amesh fc /\
  virial_pitch fc' = virial_pitch fc /\
  length (m_force fc') = length (m_force fc) /\
  length (m_virial fc') = length (m_virial fc).
Proof.
  intros Hs.
  destruct (triangle_step_resolved _ _ _ _ _ _ _ _ Hs)
    as (idx_a & idx_b & idx_c & pa & pb & pc & K0 & Hr & Ha & Hb & Hc & HK).
  destruct (triangle_step_keeps Hr Ha Hb Hc HK Hs) as (? & ? & ? & _ & ? & ?).
  done.
Qed.

Lemma triangle_loop_keeps (pd : ParticleData Scalar) (compute_virial : bool)
    (At : Scalar) (triangles : list members_t) :
  forall (fc fc' : ForceCompute Scalar) (tv tv' : Virial6 Scalar),
  triangle_loop pd compute_virial At triangles (fc, tv) = Some (fc', tv') ->
  m_K fc' = m_K fc /\ m_Amesh fc' = m_Amesh fc /\
  virial_pitch fc' = virial_pitch fc /\
  length (m_force fc') = length (m_force fc) /\
  length (m_virial fc') = length (m_virial fc).
Proof.
  induction triangles as [|triangle rest IH]; intros fc fc' tv tv' Hl.
  - by injection Hl as <- _.
  - cbn [triangle_loop] in Hl. apply bind_Some in Hl as ([fc1 tv1] & Hs & Hl).
    apply IH in Hl as (K1 & A1 & P1 & F1 & V1).
    apply triangle_step_keeps_all in Hs as (K0 & A0 & P0 & F0 & V0).
    repeat split; congruence.
Qed.

(** The frame of a pass: the loop and the two memsets write to the cells of
    the accumulators and to the area only. *)
Lemma computeForces_frame
    (pd : ParticleData Scalar) (mesh : MeshTriangleData) (fc fc' : ForceCompute Scalar) :
  computeForces pd mesh fc = Some fc' ->
  m_K fc' = m_K fc /\ m_Amesh fc' = m_Amesh fc /\
  virial_pitch fc' = virial_pitch fc /\
  length (m_force fc') = length (m_force fc) /\
  length (m_virial fc') = length (m_virial fc).
Proof.
  unfold computeForces. intros Hc.
  apply bind_Some in Hc as (At & _ & Hc).
  apply bind_Some in Hc as ([fc1 tv1] & Hl & Hc).
  injection Hc as <-. cbn [fst].
  apply triangle_loop_keeps in Hl as (K1 & A1 & P1 & F1 & V1).
  cbn [m_K m_Amesh virial_pitch m_force m_virial set_area set_accumulators] in *.
  rewrite length_replicate in F1. rewrite length_replicate in V1. done.
Qed.

(** X1. A pass that returns has left the parameters of every type, the pitch
    of the virial and the sizes of the two accumulator arrays as they were. *)
Theorem computeForces_keeps_parameters
    (pd : ParticleData Scalar) (mesh : MeshTriangleData) (fc fc' : ForceCompute Scalar) :
  computeForces pd mesh fc = Some fc' ->
  m_K fc' = m_K fc /\ m_Amesh fc' = m_Amesh fc /\
  virial_pitch fc' = virial_pitch fc /\
  length (m_force fc') = length (m_force fc) /\
  length (m_virial fc') = length (m_virial fc).
Proof. apply computeForces_frame. Qed.

(** The pass reads of the force compute the parameters, the pitch and the
    sizes of the accumulators, and nothing of what the accumulators hold. *)
Lemma computeForces_ext (pd : ParticleData Scalar) (mesh : MeshTriangleData)
    (fc1 fc2 : ForceCompute Scalar) :
  m_K fc1 = m_K fc2 -> m_Amesh fc1 = m_Amesh fc2 ->
  virial_pitch fc1 = virial_pitch fc2 ->
  length (m_force fc1) = length (m_force fc2) ->
  length (m_virial fc1) = length (m_virial fc2) ->
  computeForces pd mesh fc1 = computeForces pd mesh fc2.
Proof.
  intros HK HA HP HF HV. unfold computeForces, target_area.
  cbn [m_Amesh set_accumulators]. rewrite HA.
  destruct (at_index (m_Amesh fc2) 0%N) as [A0|]; [|reflexivity].
  cbn [mbind option_bind]. unfold set_area, set_accumulators.
  cbn [m_K m_Amesh m_force m_virial virial_pitch m_area].
  by rewrite HK, HA, HP, HF, HV.
Qed.

(** X2. The accumulators and the area are zeroed at the start of every pass,
    so nothing of an earlier pass leaks into a later one: two force computes
    with the same parameters, pitch and array sizes get the same result from
    a pass, whatever forces, energies, virial and area each held before. *)
Theorem computeForces_forgets_accumulators
    (pd : ParticleData Scalar) (mesh : MeshTriangleData)
    (fc1 fc2 : ForceCompute Scalar) :
  m_K fc1 = m_K fc2 -> m_Amesh fc1 = m_Amesh fc2 ->
  virial_pitch fc1 = virial_pitch fc2 ->
  length (m_force fc1) = length (m_force fc2) ->
  length (m_virial fc1) = length (m_virial fc2) ->
  computeForces pd mesh fc1 = computeForces pd mesh fc2.
Proof. apply computeForces_ext. Qed.

(** ** The area of the mesh *)

Lemma triangle_step_area (pd : ParticleData Scalar) (compute_virial : bool)
    (At : Scalar) (fc fc' : ForceCompute Scalar) (tv tv' : Virial6 Scalar)
    (triangle : members_t) :
  triangle_step pd compute_virial At (fc, tv) triangle = Some (fc', tv') ->
  exists area2, triangle_area2 pd triangle = Some area2 /\
                m_area fc' = m_area fc + area2 / 2.
Proof.
  intros Hs.
  destruct (triangle_step_resolved _ _ _ _ _ _ _ _ Hs)
    as (idx_a & idx_b & idx_c & pa & pb & pc & K0 & Hr & Ha & Hb & Hc & HK).
  destruct (triangle_step_keeps Hr Ha Hb Hc HK Hs) as (_ & _ & _ & Harea & _).
  eexists. split; [|exact Harea].
  unfold triangle_area2. rewrite Hr. cbn [mbind option_bind].
  rewrite Ha, Hb, Hc. reflexivity.
Qed.

Lemma triangle_loop_area (pd : ParticleData Scalar) (compute_virial : bool)
    (At : Scalar) (triangles : list members_t) :
  forall (fc fc' : ForceCompute Scalar) (tv tv' : Virial6 Scalar),
  triangle_loop pd compute_virial At triangles (fc, tv) = Some (fc', tv') ->
  area_total pd triangles (m_area fc) = Some (m_area fc').
Proof.
  induction triangles as [|triangle rest IH]; intros fc fc' tv tv' Hl.
  - by injection Hl as <- _.
  - cbn [triangle_loop] in Hl. apply bind_Some in Hl as ([fc1 tv1] & Hs & Hl).
    apply triangle_step_area in Hs as (area2 & Ha2 & Harea).
    cbn [area_total]. rewrite Ha2. cbn [mbind option_bind].
    rewrite <- Harea. by apply (IH _ _ _ _ Hl).
Qed.

(** X3. The area a pass leaves is the sum, from zero and in the order of the
    mesh, of [area2 / 2] over all triangles, those with ghost corners
    included; neither the stiffness nor the target area enters it. *)
Theorem computeForces_area_is_sum
    (pd : ParticleData Scalar) (mesh : MeshTriangleData) (fc fc' : ForceCompute Scalar) :
  computeForces pd mesh fc = Some fc' ->
  area_total pd (members mesh) 0 = Some (m_area fc').
Proof.
  unfold computeForces. intros Hc.
  apply bind_Some in Hc as (At & _ & Hc).
  apply bind_Some in Hc as ([fc1 tv1] & Hl & Hc).
  injection Hc as <-. cbn [fst].
  by apply triangle_loop_area in Hl.
Qed.

(** ** A triangle that does not resolve stops the pass *)

Lemma triangle_loop_unresolved (pd : ParticleData Scalar) (compute_virial : bool)
    (At : Scalar) (triangles : list members_t) (triangle : members_t) :
  triangle ∈ triangles -> resolve pd triangle = None ->
  forall st, triangle_loop pd compute_virial At triangles st = None.
Proof.
  intros Hin Hr. induction triangles as [|t0 rest IH]; intros st.
  - by apply elem_of_nil in Hin.
  - cbn [triangle_loop].
    destruct (triangle_step pd compute_virial At st t0) as [st'|] eqn:Hs;
      [|reflexivity].
    cbn [mbind option_bind].
    apply elem_of_cons in Hin as [<-|Hin]; [|by apply IH].
    destruct st as [fc tv], st' as [fc' tv'].
    destruct (triangle_step_resolved _ _ _ _ _ _ _ _ Hs) as (? & ? & ? & ? & ? & ? & ? & Hr' & _).
    congruence.
Qed.

Lemma resolve_bad_tag (pd : ParticleData Scalar) (triangle : members_t) :
  (uint_add (getMaximumTag pd) 1 <= tag_0 triangle \/
   uint_add (getMaximumTag pd) 1 <= tag_1 triangle \/
   uint_add (getMaximumTag pd) 1 <= tag_2 triangle)%N ->
  resolve pd triangle = None.
Proof.
  intros Hbad. unfold resolve, check.
  destruct (N.ltb_spec (tag_0 triangle) (uint_add (getMaximumTag pd) 1));
    [|reflexivity].
  destruct (N.ltb_spec (tag_1 triangle) (uint_add (getMaximumTag pd) 1));
    [|reflexivity].
  destruct (N.ltb_spec (tag_2 triangle) (uint_add (getMaximumTag pd) 1));
    [|reflexivity].
  lia.
Qed.

(** X4. One triangle anywhere in the mesh with a tag beyond the greatest tag
    of the particles fails the assertion of the loop: the pass returns
    nothing, whatever the other triangles are. *)
Theorem computeForces_bad_tag
    (pd : ParticleData Scalar) (mesh : MeshTriangleData) (fc : ForceCompute Scalar)
    (triangle : members_t) :
  triangle ∈ members mesh ->
  (uint_add (getMaximumTag pd) 1 <= tag_0 triangle \/
   uint_add (getMaximumTag pd) 1 <= tag_1 triangle \/
   uint_add (getMaximumTag pd) 1 <= tag_2 triangle)%N ->
  computeForces pd mesh fc = None.
Proof.
  intros Hin Hbad. unfold computeForces.
  destruct (target_area mesh _) as [At|]; [|reflexivity].
  cbn [mbind option_bind].
  rewrite (triangle_loop_unresolved _ _ _ _ _ Hin (resolve_bad_tag _ _ Hbad)).
  reflexivity.
Qed.
End Pass.

Section Passes.
Context {Scalar : Type} {ops : ScalarOps Scalar}.
Local Open Scope scalar_scope.

(** ** The virial when it is not requested *)

Lemma v_get_zero (j : N) : v_get (Scalar := Scalar) virial_zero j = 0.
Proof.
  destruct j as [|p]; [reflexivity|].
  do 3 (destruct p as [p|p|]; try reflexivity).
Qed.

Lemma modify_at_fixed {A : Type} (l l' : list A) (i : N) (f : A -> A) :
  modify_at l i f = Some l' ->
  (forall v, at_index l i = Some v -> f v = v) -> l' = l.
Proof.
  unfold modify_at. intros Hm Hf.
  apply bind_Some in Hm as (v & Hv & Hm). injection Hm as <-.
  rewrite (Hf v Hv). by apply list_insert_id.
Qed.

Lemma add_virial_zero (pitch idx : N) (js : list N) (n : nat) (virial' : list Scalar) :
  0 + 0 = 0 ->
  add_virial pitch idx virial_zero js (replicate n 0) = Some virial' ->
  virial' = replicate n 0.
Proof.
  intros H0. induction js as [|j js IH]; simpl; intros Ha.
  - by injection Ha as <-.
  - apply bind_Some in Ha as (v1 & Hm & Ha).
    apply modify_at_fixed in Hm as ->; [by apply IH|].
    intros v Hv. unfold at_index in Hv. apply lookup_replicate in Hv as [-> _].
    by rewrite v_get_zero.
Qed.

Lemma apply_vertex_virial_zero (pd : ParticleData Scalar) (idx : N) (F : Scalar3 Scalar)
    (e : Scalar) (fc fc' : ForceCompute Scalar) (n : nat) :
  0 + 0 = 0 ->
  m_virial fc = replicate n 0 ->
  apply_vertex pd idx F e virial_zero fc = Some fc' ->
  m_virial fc' = replicate n 0.
Proof.
  intros H0 Hv Ha. destruct (N.lt_ge_cases idx (getN pd)) as [Ho|Hg].
  - destruct (apply_vertex_owned _ _ _ _ _ _ _ Ho Ha) as (f' & v' & _ & Hadd & ->).
    cbn [m_virial set_accumulators]. rewrite Hv in Hadd.
    by apply add_virial_zero in Hadd.
  - rewrite apply_vertex_ghost in Ha by done. by injection Ha as <-.
Qed.

Lemma triangle_loop_virial_zero (pd : ParticleData Scalar) (At : Scalar)
    (triangles : list members_t) (n : nat) :
  0 + 0 = 0 ->
  forall (fc fc' : ForceCompute Scalar) (tv' : Virial6 Scalar),
  m_virial fc = replicate n 0 ->
  triangle_loop pd false At triangles (fc, virial_zero) = Some (fc', tv') ->
  m_virial fc' = replicate n 0.
Proof.
  intros H0. induction triangles as [|triangle rest IH]; intros fc fc' tv' Hv Hl.
  - by injection Hl as <- _.
  - cbn [triangle_loop] in Hl. apply bind_Some in Hl as ([fc1 tv1] & Hs & Hl).
    destruct (triangle_step_resolved _ _ _ _ _ _ _ _ Hs)
      as (idx_a & idx_b & idx_c & pa & pb & pc & K0 & Hr & Ha & Hb & Hc & HK).
    destruct (triangle_step_inv Hr Ha Hb Hc HK Hs) as (g1 & g2 & H1 & H2 & H3 & ->).
    unfold corner_virial in *.
    apply (apply_vertex_virial_zero _ _ _ _ _ _ n H0) in H1; [|exact Hv].
    apply (apply_vertex_virial_zero _ _ _ _ _ _ n H0) in H2; [|exact H1].
    apply (apply_vertex_virial_zero _ _ _ _ _ _ n H0) in H3; [|exact H2].
    by apply (IH _ _ _ H3 Hl).
Qed.

(** X5. When the pressure tensor is not requested the pass leaves every cell
    of the virial at zero (in an arithmetic where 0 + 0 is 0, as in binary64
    and in the reals). *)
Theorem computeForces_virial_not_requested
    (pd : ParticleData Scalar) (mesh : MeshTriangleData) (fc fc' : ForceCompute Scalar) :
  0 + 0 = 0 ->
  pressure_tensor pd = false ->
  computeForces pd mesh fc = Some fc' ->
  m_virial fc' = replicate (length (m_virial fc)) 0.
Proof.
  intros H0 Hp. unfold computeForces. rewrite Hp. intros Hc.
  apply bind_Some in Hc as (At & _ & Hc).
  apply bind_Some in Hc as ([fc1 tv1] & Hl & Hc).
  injection Hc as <-. cbn [fst].
  apply (triangle_loop_virial_zero _ _ _ (length (m_virial fc)) H0 _ _ _) in Hl;
    [exact Hl|reflexivity].
Qed.

(** ** Particles the pass does not write to *)

Lemma triangle_loop_no_corner_force (pd : ParticleData Scalar) (compute_virial : bool)
    (At : Scalar) (triangles : list members_t) (i : N) :
  (forall triangle idx_a idx_b idx_c,
     triangle ∈ triangles -> resolve pd triangle = Some (idx_a, idx_b, idx_c) ->
     i <> idx_a /\ i <> idx_b /\ i <> idx_c) ->
  forall (fc fc' : ForceCompute Scalar) (tv tv' : Virial6 Scalar),
  triangle_loop pd compute_virial At triangles (fc, tv) = Some (fc', tv') ->
  at_index (m_force fc') i = at_index (m_force fc) i.
Proof.
  induction triangles as [|triangle rest IH]; intros Hno fc fc' tv tv' Hl.
  - by injection Hl as <- _.
  - cbn [triangle_loop] in Hl. apply bind_Some in Hl as ([fc1 tv1] & Hs & Hl).
    rewrite (IH (fun t a b c Ht => Hno t a b c (list_elem_of_further _ _ _ Ht)) _ _ _ _ Hl).
    destruct (triangle_step_resolved _ _ _ _ _ _ _ _ Hs)
      as (idx_a & idx_b & idx_c & pa & pb & pc & K0 & Hr & Ha & Hb & Hc & HK).
    destruct (Hno triangle idx_a idx_b idx_c (list_elem_of_here _ _) Hr)
      as (Na & Nb & Nc).
    rewrite (triangle_step_force_at Hr Ha Hb Hc HK Hs i). cbv zeta.
    rewrite (proj2 (N.eqb_neq i idx_a) Na), (proj2 (N.eqb_neq i idx_b) Nb),
      (proj2 (N.eqb_neq i idx_c) Nc).
    by rewrite !andb_false_r.
Qed.

(** X6. A particle that is a corner of no triangle of the mesh, owned or
    not, holds zero force and zero energy after the pass. *)
Theorem computeForces_no_corner_zero
    (pd : ParticleData Scalar) (mesh : MeshTriangleData) (fc fc' : ForceCompute Scalar)
    (i : N) :
  no_corner pd mesh i ->
  (N.to_nat i < length (m_force fc))%nat ->
  computeForces pd mesh fc = Some fc' ->
  at_index (m_force fc') i = Some zero4.
Proof.
  unfold computeForces. intros Hno Hi Hc.
  apply bind_Some in Hc as (At & _ & Hc).
  apply bind_Some in Hc as ([fc1 tv1] & Hl & Hc).
  injection Hc as <-. cbn [fst].
  rewrite (triangle_loop_no_corner_force _ _ _ _ _ Hno _ _ _ _ Hl).
  cbn [m_force set_area set_accumulators]. unfold at_index.
  by apply lookup_replicate_2.
Qed.

Lemma triangle_loop_ghost_virial (pd : ParticleData Scalar) (compute_virial : bool)
    (At : Scalar) (triangles : list members_t) (pitch j i : N) :
  (getN pd <= pitch)%N -> (i < pitch)%N -> (getN pd <= i)%N ->
  forall (fc fc' : ForceCompute Scalar) (tv tv' : Virial6 Scalar),
  virial_pitch fc = pitch ->
  triangle_loop pd compute_virial At triangles (fc, tv) = Some (fc', tv') ->
  at_index (m_virial fc') (j * pitch + i) = at_index (m_virial fc) (j * pitch + i).
Proof.
  intros Hl Hi Hg.
  induction triangles as [|triangle rest IH]; intros fc fc' tv tv' Hp Hloop.
  - by injection Hloop as <- _.
  - cbn [triangle_loop] in Hloop. apply bind_Some in Hloop as ([fc1 tv1] & Hs & Hloop).
    pose proof (triangle_step_keeps_all _ _ _ _ _ _ _ _ Hs) as (_ & _ & P1 & _).
    rewrite (IH _ _ _ _ (eq_trans P1 Hp) Hloop).
    destruct (triangle_step_resolved _ _ _ _ _ _ _ _ Hs)
      as (idx_a & idx_b & idx_c & pa & pb & pc & K0 & Hr & Ha & Hb & Hc & HK).
    subst pitch.
    by apply (triangle_step_ghost_virial _ _ _ _ _ _ _ _ _ _ _ _ _ _ _
                Hr Ha Hb Hc HK Hs).
Qed.

(** X7. After a pass every ghost particle holds zero force, zero energy and
    zero virial, also when it is a corner of triangles. (A row of the virial
    has a cell for the ghost and for every owned particle.) *)
Theorem computeForces_ghosts_zero
    (pd : ParticleData Scalar) (mesh : MeshTriangleData) (fc fc' : ForceCompute Scalar)
    (i j : N) :
  (getN pd <= i)%N ->
  (N.to_nat i < length (m_force fc))%nat ->
  (i < virial_pitch fc)%N ->
  (N.to_nat (j * virial_pitch fc + i) < length (m_virial fc))%nat ->
  computeForces pd mesh fc = Some fc' ->
  at_index (m_force fc') i = Some zero4 /\
  at_index (m_virial fc') (j * virial_pitch fc + i) = Some 0.
Proof.
  intros Hg Hi Hp Hj Hc. split; [by apply (computeForces_ghost_force _ _ _ _ _ Hc)|].
  unfold computeForces in Hc.
  apply bind_Some in Hc as (At & _ & Hc).
  apply bind_Some in Hc as ([fc1 tv1] & Hl & Hc).
  injection Hc as <-. cbn [fst].
  assert (getN pd <= virial_pitch fc)%N as Hle by lia.
  rewrite (triangle_loop_ghost_virial _ _ _ _ (virial_pitch fc) j i
             Hle Hp Hg
             (set_area (set_accumulators fc (replicate (length (m_force fc)) zero4)
                                            (replicate (length (m_virial fc)) 0)) 0)
             _ _ _ eq_refl Hl).
  cbn [m_virial set_area set_accumulators]. unfold at_index.
  by apply lookup_replicate_2.
Qed.

(** ** [energyDiff] and the accumulators *)

Lemma energyDiff_ext (pd : ParticleData Scalar) (fc1 fc2 : ForceCompute Scalar)
    (idx_a idx_b idx_c idx_d type_id : N) :
  m_K fc1 = m_K fc2 -> m_Amesh fc1 = m_Amesh fc2 ->
  fst <$> energyDiff pd fc1 idx_a idx_b idx_c idx_d type_id
  = fst <$> energyDiff pd fc2 idx_a idx_b idx_c idx_d type_id.
Proof.
  intros HK HA. unfold energyDiff. rewrite HK, HA.
  destruct (at_index (h_pos pd) idx_a); [|reflexivity].
  destruct (at_index (h_pos pd) idx_b); [|reflexivity].
  destruct (at_index (h_pos pd) idx_c); [|reflexivity].
  destruct (at_index (h_pos pd) idx_d); [|reflexivity].
  cbn [mbind option_bind].
  destruct (at_index (m_Amesh fc2) type_id); [|reflexivity].
  destruct (at_index (m_K fc2) 0%N); [|reflexivity].
  cbn [mbind option_bind].
  destruct (at_index (m_Amesh fc2) 0%N); reflexivity.
Qed.

(** X8. The energy change of a flip does not depend on whether a pass has
    run: [energyDiff] returns the same value before and after
    [computeForces]. *)
Theorem energyDiff_after_computeForces
    (pd : ParticleData Scalar) (mesh : MeshTriangleData) (fc fc' : ForceCompute Scalar)
    (idx_a idx_b idx_c idx_d type_id : N) :
  computeForces pd mesh fc = Some fc' ->
  fst <$> energyDiff pd fc' idx_a idx_b idx_c idx_d type_id
  = fst <$> energyDiff pd fc idx_a idx_b idx_c idx_d type_id.
Proof.
  intros Hc.
  destruct (computeForces_frame _ _ _ _ Hc) as (HK & HA & _).
  by apply energyDiff_ext.
Qed.

(** X9. [energyDiff] has a defined result exactly when the four particle
    indices lie in the position array, the type index lies in [m_Amesh], and
    [m_K] has an entry 0; it checks none of this itself. *)
Theorem energyDiff_defined_iff
    (pd : ParticleData Scalar) (fc : ForceCompute Scalar)
    (idx_a idx_b idx_c idx_d type_id : N) :
  is_Some (energyDiff pd fc idx_a idx_b idx_c idx_d type_id) <->
  (N.to_nat idx_a < length (h_pos pd) /\ N.to_nat idx_b < length (h_pos pd) /\
   N.to_nat idx_c < length (h_pos pd) /\ N.to_nat idx_d < length (h_pos pd) /\
   N.to_nat type_id < length (m_Amesh fc) /\ 0 < length (m_K fc))%nat.
Proof.
  unfold energyDiff, at_index. rewrite <- !lookup_lt_is_Some.
  change (N.to_nat 0) with 0%nat.
  split.
  - intros [[r g] He].
    apply bind_Some in He as (pa & Ha & He).
    apply bind_Some in He as (pb & Hb & He).
    apply bind_Some in He as (pc & Hc & He).
    apply bind_Some in He as (pd' & Hd & He).
    apply bind_Some in He as (At & HAt & He).
    apply bind_Some in He as (K0 & HK & He).
    rewrite Ha, Hb, Hc, Hd, HAt, HK. eauto 10.
  - intros ([pa ->] & [pb ->] & [pc ->] & [pd' ->] & [At HAt] & [K0 ->]).
    rewrite HAt. cbn [mbind option_bind].
    assert (is_Some (m_Amesh fc !! 0%nat)) as [A0 ->]; [|cbn; eauto].
    apply lookup_lt_is_Some. apply lookup_lt_Some in HAt. lia.
Qed.
End Passes.

Section Parameters.
Context {Scalar : Type} {ops : ScalarOps Scalar}.
Local Open Scope scalar_scope.

(** ** [setParams] as a store *)

Lemma modify_at_const {A : Type} (l : list A) (i : N) (x : A) :
  modify_at l i (fun _ => x)
  = if decide (N.to_nat i < length l)%nat then Some (<[N.to_nat i := x]> l) else None.
Proof.
  unfold modify_at, at_index. destruct (decide (N.to_nat i < length l)%nat) as [Hi|Hi].
  - destruct (lookup_lt_is_Some_2 _ _ Hi) as [v ->]. reflexivity.
  - rewrite (lookup_ge_None_2 l (N.to_nat i)) by lia. reflexivity.
Qed.

(** X10. [setParams] for one type leaves the parameters of every other type,
    the sizes of the parameter arrays, the accumulators and the area as they
    were. *)
Theorem setParams_other_types
    (fc fc' : ForceCompute Scalar) (type : N) (K A_mesh : Scalar) :
  snd (setParams fc type K A_mesh) = Some fc' ->
  (forall other, other <> type ->
     at_index (m_K fc') other = at_index (m_K fc) other /\
     at_index (m_Amesh fc') other = at_index (m_Amesh fc) other) /\
  length (m_K fc') = length (m_K fc) /\
  length (m_Amesh fc') = length (m_Amesh fc) /\
  m_force fc' = m_force fc /\ m_virial fc' = m_virial fc /\
  virial_pitch fc' = virial_pitch fc /\ m_area fc' = m_area fc.
Proof.
  unfold setParams. cbn [snd]. intros Hs.
  apply bind_Some in Hs as (K' & HK & Hs).
  apply bind_Some in Hs as (A' & HA & Hs).
  injection Hs as <-. cbn [m_K m_Amesh m_force m_virial virial_pitch m_area set_params].
  split; [|by rewrite (modify_at_length _ _ _ _ HK), (modify_at_length _ _ _ _ HA)].
  intros other Hne.
  rewrite (at_index_modify_at _ _ _ _ HK), (at_index_modify_at _ _ _ _ HA).
  by rewrite (proj2 (N.eqb_neq other type) Hne).
Qed.

(** X11. [setParams] has a defined result exactly when the type index lies
    within both parameter arrays; it checks no bound itself. *)
Theorem setParams_defined_iff
    (fc : ForceCompute Scalar) (type : N) (K A_mesh : Scalar) :
  is_Some (snd (setParams fc type K A_mesh)) <->
  (N.to_nat type < length (m_K fc) /\ N.to_nat type < length (m_Amesh fc))%nat.
Proof.
  unfold setParams. cbn [snd]. rewrite !modify_at_const.
  destruct (decide (N.to_nat type < length (m_K fc))%nat) as [HK|HK];
    cbn [mbind option_bind].
  - destruct (decide (N.to_nat type < length (m_Amesh fc))%nat) as [HA|HA];
      cbn [mbind option_bind].
    + split; [done|eauto].
    + split; [intros [? [=]]|intros [_ ?]; done].
  - split; [intros [? [=]]|intros [? _]; done].
Qed.

(** X12. The last [setParams] for a type wins: after an earlier call for the
    same type, a call behaves as it would have without the earlier one. *)
Theorem setParams_last_wins
    (fc fc1 : ForceCompute Scalar) (type : N) (K1 A1 K2 A2 : Scalar) :
  snd (setParams fc type K1 A1) = Some fc1 ->
  setParams fc1 type K2 A2 = setParams fc type K2 A2.
Proof.
  unfold setParams at 1. cbn [snd]. rewrite !modify_at_const. intros Hs.
  destruct (decide (N.to_nat type < length (m_K fc))%nat) as [HK|HK];
    cbn [mbind option_bind] in Hs; [|discriminate].
  destruct (decide (N.to_nat type < length (m_Amesh fc))%nat) as [HA|HA];
    cbn [mbind option_bind] in Hs; [|discriminate].
  injection Hs as <-. unfold setParams. rewrite !modify_at_const.
  cbn [m_K m_Amesh set_params]. rewrite !length_insert.
  destruct (decide (N.to_nat type < length (m_K fc))%nat); [|done].
  destruct (decide (N.to_nat type < length (m_Amesh fc))%nat); [|done].
  cbn [mbind option_bind]. by rewrite !list_insert_insert_eq.
Qed.
End Parameters.

(** ** The host side of the batched pass, again *)

Lemma land_one_odd (flags : N) : negb (N.land flags 1 =? 0)%N = N.odd flags.
Proof. destruct flags as [|[p|p|]]; reflexivity. Qed.

(** X13. The host never clears the flag. If the kernel does not clear it
    either, a fault that went unreported while error checking was off makes
    the next call with error checking on throw, whatever that call computes. *)
Theorem missed_fault_reported_later {Scalar : Type} {MeshTables : Type}
    (kernel : @KernelArgs Scalar MeshTables -> @KernelResult Scalar)
    (pd pd' : ParticleData Scalar) (tables tables' : MeshTables) (n_types n_types' : N)
    (fc fc1 : @ForceComputeGPU Scalar) :
  (forall args, N.odd (k_flags args) = true -> N.odd (r_flags (kernel args)) = true) ->
  computeForces_GPU kernel false pd tables n_types fc = ([], Ok fc1) ->
  N.odd (m_flags fc1) = true ->
  exists text,
    computeForces_GPU kernel true pd' tables' n_types' fc1
    = ([Error text], Throw "Error in meshtriangle calculation").
Proof.
  intros Hkeep _ Hodd. unfold computeForces_GPU. cbn [m_flags].
  rewrite land_one_odd. rewrite Hkeep by exact Hodd. eauto.
Qed.

(** X14. The number of blocks the area pass launches, [N / 256 + 1], covers
    every owned particle, with at most one block to spare. *)
Theorem num_blocks_cover (group_size : N) :
  (group_size < 2 ^ 32)%N ->
  (group_size < num_blocks group_size m_block_size * m_block_size
   /\ num_blocks group_size m_block_size * m_block_size <= group_size + m_block_size)%N.
Proof.
  intros Hn. unfold num_blocks, uint_add, m_block_size.
  assert (group_size / 256 < 2 ^ 24)%N as Hq.
  { apply N.Div0.div_lt_upper_bound. change (256 * 2 ^ 24)%N with (2 ^ 32)%N. lia. }
  rewrite N.mod_small by (change (2 ^ 32)%N with 4294967296%N in *;
                          change (2 ^ 24)%N with 16777216%N in *; lia).
  pose proof (N.Div0.div_mod group_size 256) as Hdm.
  assert (group_size mod 256 < 256)%N by (apply N.mod_lt; lia).
  clear Hn Hq.
  set (q := (group_size / 256)%N) in *. set (r := (group_size mod 256)%N) in *.
  clearbody q r. lia.
Qed.

(** ** The forces of one triangle in exact arithmetic *)

Section ExactForces.
Variables (box : BoxDim R) (K0 At : R) (pa pb pc : Scalar4 R).
Let t := triangle_terms box K0 At pa pb pc.

(** X15. The three forces of a triangle add up to zero: a triangle exerts
    no net force on its corners. *)
Theorem forces_sum_to_zero :
  v_add (v_add (t_Fa t) (t_Fb t)) (t_Fc t) = make_scalar3 0%R 0%R 0%R.
Proof.
  unfold t, triangle_terms, Fa_of, Fb_of, Fc_of, v_add, v_sub, v_scale.
  cbn [t_Fa t_Fb t_Fc x3 y3 z3 s_add s_sub s_mul exact].
  f_equal; ring.
Qed.

(** X16. The force on each corner is perpendicular to the opposite edge: on
    b to ac, on c to ab, on a to bc. Sliding a corner along the line
    parallel to the opposite edge does not change the area. *)
Theorem forces_perpendicular_to_opposite_edges :
  dot (t_Fb t) (t_dac t) = 0%R /\
  dot (t_Fc t) (t_dab t) = 0%R /\
  dot (t_Fa t) (v_sub (t_dac t) (t_dab t)) = 0%R.
Proof.
  unfold t, triangle_terms, Fa_of, Fb_of, Fc_of, v_add, v_sub, v_scale, dot.
  cbn [t_Fa t_Fb t_Fc t_dab t_dac x3 y3 z3 s_add s_sub s_mul exact].
  repeat split; ring.
Qed.

(** X17. A triangle whose area is its target, [area2 = 2 At], has no energy
    and exerts no force. *)
Theorem rest_state :
  t_area2 t = (2 * At)%R ->
  t_energy_pp t = 0%R /\
  t_Fa t = make_scalar3 0%R 0%R 0%R /\
  t_Fb t = make_scalar3 0%R 0%R 0%R /\
  t_Fc t = make_scalar3 0%R 0%R 0%R.
Proof.
  intros Hrest.
  assert (t_prefactor t = 0%R) as Hp.
  { unfold t, triangle_terms in *. cbn [t_prefactor t_area2] in *.
    unfold prefactor_of. cbn [s_add s_sub s_mul s_div s_opp s_lit exact].
    rewrite Hrest. replace (2 * At / 2 - At)%R with 0%R by lra. ring. }
  assert (t_energy_pp t = 0%R) as He.
  { unfold t, triangle_terms in *. cbn [t_energy_pp t_area2] in *.
    unfold energy_pp_of. cbn [s_add s_sub s_mul s_div s_opp s_lit exact].
    rewrite Hrest. replace (2 * At / 2 - At)%R with 0%R by lra. ring. }
  split; [exact He|].
  unfold t, triangle_terms in *. cbn [t_prefactor t_Fa t_Fb t_Fc] in *.
  unfold Fa_of, Fb_of, Fc_of. rewrite Hp. unfold v_scale, v_add, v_sub.
  cbn [x3 y3 z3 s_add s_sub s_mul exact]. repeat split; f_equal; ring.
Qed.

(** X18. The energy a corner receives is a third of the harmonic energy of
    the triangle: the three shares add up to [K/(2 At) (area2/2 - At)^2]. *)
Theorem energy_shares_add_up :
  At <> 0%R ->
  (t_energy_pp t + t_energy_pp t + t_energy_pp t
   = K0 / (2 * At) * ((t_area2 t / 2 - At) * (t_area2 t / 2 - At)))%R.
Proof.
  intros HAt. unfold t, triangle_terms. cbn [t_energy_pp t_area2].
  unfold energy_pp_of. cbn [s_add s_sub s_mul s_div s_lit exact].
  field. exact HAt.
Qed.
End ExactForces.

(** ** A flip and its reverse in exact arithmetic *)

Lemma delta_reverse (p q : Scalar4 R) : delta q p = v_neg (delta p q).
Proof.
  unfold delta, v_neg. cbn [x3 y3 z3 s_sub s_opp exact]. f_equal; ring.
Qed.

Lemma dot_neg_neg (u v : Scalar3 R) : dot (v_neg u) (v_neg v) = dot u v.
Proof.
  unfold dot, v_neg. cbn [x3 y3 z3 s_add s_mul s_opp exact]. ring.
Qed.

Lemma dot_div_neg_neg (u v : Scalar3 R) (r s : R) :
  dot (v_div (v_neg u) r) (v_div (v_neg v) s) = dot (v_div u r) (v_div v s).
Proof.
  unfold dot, v_div, v_neg. cbn [x3 y3 z3 s_add s_mul s_div s_opp s_lit exact]. ring.
Qed.

Lemma flip_geometry_reverse (box : BoxDim R) (pa pb pc pd : Scalar4 R) :
  odd_box box ->
  let g := flip_geometry box pa pb pc pd in
  flip_geometry box pc pd pa pb
  = {| rab := rdc g; rac := rac g; rbd := rbd g; rdc := rab g;
       c_baac := c_dcca g; c_abbd := c_bddc g;
       c_dcca := c_baac g; c_bddc := c_abbd g |}.
Proof.
  intros Hodd. cbv zeta. unfold flip_geometry.
  cbn [rab rac rbd rdc c_baac c_abbd c_dcca c_bddc].
  rewrite (delta_reverse pd pc), (delta_reverse pa pc), (delta_reverse pb pd),
    (delta_reverse pa pb).
  rewrite !Hodd, !dot_neg_neg, !dot_div_neg_neg. reflexivity.
Qed.

(** X19. In exact arithmetic, and in a box whose minimum image is odd, the
    flip back costs the opposite of the flip: [energyDiff] for (c, d, a, b)
    is the opposite of [energyDiff] for (a, b, c, d). *)
Theorem energyDiff_reverse_flip
    (pd : ParticleData R) (fc : ForceCompute R)
    (idx_a idx_b idx_c idx_d type_id : N) (r : R) :
  odd_box (getGlobalBox pd) ->
  energyDiff pd fc idx_a idx_b idx_c idx_d type_id = Some (r, fc) ->
  energyDiff pd fc idx_c idx_d idx_a idx_b type_id = Some ((- r)%R, fc).
Proof.
  intros Hodd He. pose proof He as He0. unfold energyDiff in He0.
  apply bind_Some in He0 as (pa & Ha & He0).
  apply bind_Some in He0 as (pb & Hb & He0).
  apply bind_Some in He0 as (pc & Hc & He0).
  apply bind_Some in He0 as (pd' & Hd & He0).
  apply bind_Some in He0 as (At & HAt & He0).
  apply bind_Some in He0 as (K0 & HK & He0).
  apply bind_Some in He0 as (A0 & HA & _).
  rewrite (energyDiff_value _ _ _ _ _ _ _ _ _ _ _ _ _ _ Ha Hb Hc Hd HAt HK HA) in He.
  assert (r = energy_delta (flip_geometry (getGlobalBox pd) pa pb pc pd') K0 A0 At)
    as -> by congruence.
  rewrite (energyDiff_value _ _ _ _ _ _ _ _ _ _ _ _ _ _ Hc Hd Ha Hb HAt HK HA).
  rewrite (flip_geometry_reverse _ _ _ _ _ Hodd). cbv zeta.
  set (g := flip_geometry (getGlobalBox pd) pa pb pc pd'). clearbody g.
  destruct g as [rab0 rac0 rbd0 rdc0 c1 c2 c3 c4].
  f_equal. f_equal. unfold energy_delta, area_of.
  cbn [rab rac rbd rdc c_baac c_abbd c_dcca c_bddc].
  generalize (sine_of c1) (sine_of c2) (sine_of c3) (sine_of c4). intros s1 s2 s3 s4.
  cbn [s_add s_sub s_mul s_div s_lit exact]. unfold Rdiv. ring.
Qed.

(** ** The further properties on the concrete systems *)

Lemma computeForces_keeps_parameters_witness :
  m_K ghost_pass_result = m_K two_type_compute /\
  m_Amesh ghost_pass_result = m_Amesh two_type_compute /\
  virial_pitch ghost_pass_result = virial_pitch two_type_compute /\
  length (m_force ghost_pass_result) = length (m_force two_type_compute) /\
  length (m_virial ghost_pass_result) = length (m_virial two_type_compute).
Proof.
  apply (computeForces_keeps_parameters (ops := binary64) ghost_system ghost_mesh).
  vm_compute. reflexivity.
Defined.

Lemma computeForces_forgets_accumulators_witness :
  computeForces ghost_system ghost_mesh two_type_compute
  = computeForces ghost_system ghost_mesh fresh_compute.
Proof.
  apply (computeForces_forgets_accumulators (ops := binary64) ghost_system ghost_mesh
           two_type_compute fresh_compute); reflexivity.
Defined.

Lemma computeForces_area_is_sum_witness :
  area_total ghost_system (members ghost_mesh) 0%float
  = Some (m_area ghost_pass_result).
Proof.
  apply (computeForces_area_is_sum (ops := binary64) ghost_system ghost_mesh
           two_type_compute).
  vm_compute. reflexivity.
Defined.

Lemma computeForces_bad_tag_witness :
  computeForces ghost_system stray_mesh two_type_compute = None.
Proof.
  apply (computeForces_bad_tag (ops := binary64) ghost_system stray_mesh
           two_type_compute stray_triangle).
  - apply list_elem_of_further, list_elem_of_here.
  - right. right. vm_compute. discriminate.
Defined.

Lemma computeForces_virial_not_requested_witness :
  m_virial flip_pass_result = replicate (length (m_virial flip_compute)) 0%float.
Proof.
  apply (computeForces_virial_not_requested (ops := binary64) flip_system flip_mesh).
  - reflexivity.
  - reflexivity.
  - vm_compute. reflexivity.
Defined.

Lemma computeForces_no_corner_zero_witness :
  at_index (m_force lone_pass_result) 3 = Some (make_scalar4 0 0 0 0)%float.
Proof.
  apply (computeForces_no_corner_zero (ops := binary64) lone_system ghost_mesh
           flip_compute).
  - intros triangle idx_a idx_b idx_c Hin Hr.
    apply list_elem_of_singleton in Hin. subst triangle.
    vm_compute in Hr. injection Hr as <- <- <-. repeat split; discriminate.
  - vm_compute. lia.
  - vm_compute. reflexivity.
Defined.

Lemma computeForces_ghosts_zero_witness :
  at_index (m_force ghost_pass_result) 2 = Some (make_scalar4 0 0 0 0)%float /\
  at_index (m_virial ghost_pass_result) (3 * 3 + 2) = Some 0%float.
Proof.
  apply (computeForces_ghosts_zero (ops := binary64) ghost_system ghost_mesh
           two_type_compute ghost_pass_result 2 3).
  - vm_compute. discriminate.
  - vm_compute. lia.
  - reflexivity.
  - vm_compute. lia.
  - vm_compute. reflexivity.
Defined.

Lemma energyDiff_after_computeForces_witness :
  fst <$> energyDiff flip_system flip_pass_result 0 1 2 3 1
  = fst <$> energyDiff flip_system flip_compute 0 1 2 3 1.
Proof.
  apply (energyDiff_after_computeForces (ops := binary64) flip_system flip_mesh).
  vm_compute. reflexivity.
Defined.

Lemma setParams_other_types_witness :
  exists fc',
    snd (setParams two_type_compute 1 (-2) 0)%float = Some fc' /\
    at_index (m_K fc') 0 = Some 3%float /\
    at_index (m_Amesh fc') 0 = Some 1%float /\
    m_force fc' = m_force two_type_compute.
Proof.
  eexists. split; [reflexivity|].
  destruct (setParams_other_types (ops := binary64) two_type_compute _ 1
              (-2)%float 0%float eq_refl) as (Hother & _ & _ & Hforce & _).
  destruct (Hother 0%N ltac:(discriminate)) as [HK HA].
  split; [exact HK|]. split; [exact HA|exact Hforce].
Defined.

Lemma setParams_last_wins_witness :
  exists fc1,
    snd (setParams two_type_compute 1 (-2) 0)%float = Some fc1 /\
    setParams fc1 1 4%float 8%float = setParams two_type_compute 1 4%float 8%float.
Proof.
  eexists. split; [reflexivity|].
  apply (setParams_last_wins (ops := binary64) two_type_compute _ 1
           (-2)%float 0%float 4%float 8%float).
  reflexivity.
Defined.

Lemma missed_fault_reported_later_witness :
  exists fc1 text,
    computeForces_GPU table_kernel false flip_system true 1 gpu_compute = ([], Ok fc1) /\
    computeForces_GPU table_kernel true flip_system false 1 fc1
    = ([Error text], Throw "Error in meshtriangle calculation").
Proof.
  exists {| g_force := g_force gpu_compute; g_virial := g_virial gpu_compute;
            g_virial_pitch := 4; m_params := m_params gpu_compute;
            m_flags := 1; m_tuner_param := 32 |}.
  destruct (missed_fault_reported_later table_kernel flip_system flip_system
              true false 1 1 gpu_compute
              {| g_force := g_force gpu_compute; g_virial := g_virial gpu_compute;
                 g_virial_pitch := 4; m_params := m_params gpu_compute;
                 m_flags := 1; m_tuner_param := 32 |}) as [text Ht].
  - intros args Hodd. unfold table_kernel. cbn [r_flags].
    destruct (k_tables args); [|exact Hodd].
    destruct (k_flags args) as [|[p|p|]]; try reflexivity; discriminate.
  - reflexivity.
  - reflexivity.
  - exists text. split; [reflexivity|exact Ht].
Defined.

Lemma num_blocks_cover_witness :
  (1000 < num_blocks 1000 m_block_size * m_block_size
   /\ num_blocks 1000 m_block_size * m_block_size <= 1000 + m_block_size)%N.
Proof. apply (num_blocks_cover 1000). reflexivity. Defined.

Lemma rest_state_witness :
  t_energy_pp (triangle_terms real_box 3%R 2%R (real_position 0 0 0)
                 (real_position 2 0 0) (real_position 0 2 0)) = 0%R.
Proof.
  apply (rest_state real_box 3%R 2%R (real_position 0 0 0) (real_position 2 0 0)
           (real_position 0 2 0)).
  unfold triangle_terms, area2_of, dot, delta, real_box, real_position.
  cbn [t_area2 minImage x3 y3 z3 x4 y4 z4 s_sqrt s_add s_sub s_mul exact].
  replace (((2 - 0) * (2 - 0) + (0 - 0) * (0 - 0) + (0 - 0) * (0 - 0))
           * ((0 - 0) * (0 - 0) + (2 - 0) * (2 - 0) + (0 - 0) * (0 - 0))
           - ((2 - 0) * (0 - 0) + (0 - 0) * (2 - 0) + (0 - 0) * (0 - 0))
             * ((2 - 0) * (0 - 0) + (0 - 0) * (2 - 0) + (0 - 0) * (0 - 0)))%R
    with ((2 * 2) * (2 * 2))%R by ring.
  apply sqrt_square. lra.
Defined.

Lemma energy_shares_add_up_witness :
  let t := triangle_terms real_box 3%R 2%R (real_position 0 0 0)
             (real_position 3 0 0) (real_position 0 3 0) in
  (t_energy_pp t + t_energy_pp t + t_energy_pp t
   = 3 / (2 * 2) * ((t_area2 t / 2 - 2) * (t_area2 t / 2 - 2)))%R.
Proof.
  apply (energy_shares_add_up real_box 3%R 2%R). lra.
Defined.

Lemma energyDiff_reverse_flip_witness :
  energyDiff real_flip_system real_flip_compute 2 3 0 1 1
  = Some ((- energy_delta
              (flip_geometry real_box (real_position 0 0 0) (real_position 3 0 0)
                 (real_position 0 3 0) (real_position (-1) 3 0)) 2 1 4)%R,
          real_flip_compute).
Proof.
  apply (energyDiff_reverse_flip real_flip_system real_flip_compute 0 1 2 3 1).
  - intros d. reflexivity.
  - reflexivity.
Defined.
